(** * The mask compositor of the selection-bias pipeline

    Shallow embedding of [create_masked_stipple]
    (src/step5_create_masked.py) and the properties its specification
    states about it.

    Modelling choices.
    - A NumPy array is a [shape] (the tuple [a.shape]) and its samples in
      row-major order ([data]); arrays that NumPy can build satisfy [wf].
    - Samples are IEEE-754 binary64 numbers (dtype float64, the dtype of a
      Python [float] threshold), with the kernel's primitive comparisons:
      [<] is [PrimFloat.ltb] and [==] is [PrimFloat.eqb], so that NaN,
      infinities and the two zeros behave as they do in NumPy.  A float32
      mask (the block letter) is compared after the threshold is converted
      to float32; [create_masked_stipple_dtype] is the function with the
      dtype of the mask made explicit, and it is [create_masked_stipple]
      for a float64 mask.
    - [np.sum] of a boolean array is an integer count, a [Z]; an array has
      fewer than 2^63 samples, so the machine integer never wraps.
    - Arrays live in a store indexed by object identity; the function
      receives and returns references.  The value-level function is the
      same body with the store left out. *)

From Stdlib Require Import ZArith Floats String Ascii.
From stdpp Require Import base option list gmap pretty.

Local Open Scope Z_scope.

(** ** NumPy arrays as values *)

(** An array of dtype [A]: the tuple [a.shape] and the samples in row-major
    (C) order. *)
Record ndarray (A : Type) : Type := NDArray { shape : list nat; data : list A }.
Arguments NDArray {A} _ _.
Arguments shape {A} _.
Arguments data {A} _.

(** Number of samples of an array of the given shape. *)
Definition size_of (sh : list nat) : nat := foldr Nat.mul 1%nat sh.

(** The arrays NumPy can build: as many samples as the shape says. *)
Definition wf {A} (a : ndarray A) : Prop := length (data a) = size_of (shape a).

(** [a[y, x]] of a 2-D array, for indices within range. *)
Definition get2 {A} (a : ndarray A) (y x : nat) : option A :=
  match shape a with
  | [h; w] =>
      if decide (y < h ∧ x < w)%nat then data a !! (y * w + x)%nat else None
  | _ => None
  end.

(** [a.copy()]: the same samples (a new object in the store, see [alloc]). *)
Definition np_copy {A} (a : ndarray A) : ndarray A :=
  NDArray (shape a) (data a).

(** [a < t] for a float64 array [a] and a scalar [t]: element-wise
    comparison of binary64 numbers.  A float32 array is compared by
    [np_less_dtype]. *)
Definition np_less (a : ndarray float) (t : float) : ndarray bool :=
  NDArray (shape a) (map (fun v => PrimFloat.ltb v t) (data a)).

(** [a == t] with a scalar [t]: element-wise IEEE equality. *)
Definition np_equal (a : ndarray float) (t : float) : ndarray bool :=
  NDArray (shape a) (map (fun v => PrimFloat.eqb v t) (data a)).

(** [a & b] of two boolean arrays of one shape. *)
Definition np_and (a b : ndarray bool) : ndarray bool :=
  NDArray (shape a) (zip_with andb (data a) (data b)).

(** [np.sum] of a boolean array: how many samples are [True]. *)
Fixpoint sum_bool (l : list bool) : Z :=
  match l with
  | [] => 0
  | b :: l' => (if b then 1 else 0) + sum_bool l'
  end.

Definition np_sum (a : ndarray bool) : Z := sum_bool (data a).

(** The samples after [a[msk] = v], a boolean-mask assignment of a scalar. *)
Fixpoint assign_where {A} (l : list A) (msk : list bool) (v : A) : list A :=
  match l, msk with
  | x :: l', b :: msk' => (if b then v else x) :: assign_where l' msk' v
  | _, _ => l
  end.

Definition np_setitem_mask {A} (a : ndarray A) (msk : ndarray bool) (v : A)
  : ndarray A :=
  NDArray (shape a) (assign_where (data a) (data msk) v).

(** ** Exceptions and results *)

Inductive exn : Type :=
| ValueError (msg : string).

Inductive result (A : Type) : Type :=
| Return (a : A)
| Raise (e : exn).
Arguments Return {A} _.
Arguments Raise {A} _.

Definition result_map {A B} (f : A -> B) (r : result A) : result B :=
  match r with
  | Return a => Return (f a)
  | Raise e => Raise e
  end.

(** [repr] of a tuple of integers, as an f-string prints [a.shape]. *)
Definition repr_shape (sh : list nat) : string :=
  match sh with
  | [] => "()"
  | [n] => "(" +:+ pretty n +:+ ",)"
  | _ => "(" +:+ String.concat ", " (pretty <$> sh) +:+ ")"
  end.

Definition shape_mismatch_message (sh_stipple sh_mask : list nat) : string :=
  "Image shapes must match: stipple_img " +:+ repr_shape sh_stipple
    +:+ " != mask_img " +:+ repr_shape sh_mask.

(** ** [create_masked_stipple] on values *)

(** The local variables of [create_masked_stipple] when it reaches its
    [return]. *)
Record locals : Type := Locals {
  masked_stipple : ndarray float;
  mask_region : ndarray bool;
  removed_count : Z;
  total_stipples : Z
}.

Definition create_masked_stipple_locals
  (stipple_img mask_img : ndarray float) (threshold : float) : result locals :=
  if bool_decide (shape stipple_img ≠ shape mask_img) then
    Raise (ValueError
             (shape_mismatch_message (shape stipple_img) (shape mask_img)))
  else
    let masked_stipple := np_copy stipple_img in
    let mask_region := np_less mask_img threshold in
    let masked_stipple := np_setitem_mask masked_stipple mask_region 1%float in
    let removed_count :=
      np_sum (np_and (np_equal stipple_img 0%float) mask_region) in
    let total_stipples := np_sum (np_equal stipple_img 0%float) in
    Return (Locals masked_stipple mask_region removed_count total_stipples).

(** What the caller receives: [return masked_stipple]. *)
Definition create_masked_stipple
  (stipple_img mask_img : ndarray float) (threshold : float)
  : result (ndarray float) :=
  result_map masked_stipple
    (create_masked_stipple_locals stipple_img mask_img threshold).

(** ** [create_masked_stipple] on a store of array objects *)

(** Object identities. *)
Definition ref : Type := positive.

(** The float arrays alive at some moment, by identity. *)
Abbreviation store := (gmap ref (ndarray float)).

(** A computation over the store: it gets stuck ([None]) only on a reference
    to no object, which Python cannot build; an exception leaves the store as
    it was when raised. *)
Definition M (A : Type) : Type := store -> option (result A * store).

Definition ret {A} (a : A) : M A := fun h => Some (Return a, h).

Definition raise {A} (e : exn) : M A := fun h => Some (Raise e, h).

Definition bind {A B} (c : M A) (k : A -> M B) : M B :=
  fun h =>
    match c h with
    | Some (Return a, h') => k a h'
    | Some (Raise e, h') => Some (Raise e, h')
    | None => None
    end.

Notation "x <~ c ;; k" := (bind c (fun x => k))
  (at level 20, c at level 99, k at level 200, only parsing).

Notation "c ;;; k" := (bind c (fun _ => k))
  (at level 99, k at level 200, only parsing, right associativity).

(** Reading through a reference. *)
Definition load (r : ref) : M (ndarray float) :=
  fun h => match h !! r with
           | Some a => Some (Return a, h)
           | None => None
           end.

(** A new object, at an identity no live object has. *)
Definition alloc (a : ndarray float) : M ref :=
  fun h => let r := fresh (dom h) in Some (Return r, <[r := a]> h).

(** [r[msk] = v]: the object at [r] is overwritten in place. *)
Definition setitem_mask (r : ref) (msk : ndarray bool) (v : float) : M unit :=
  fun h => match h !! r with
           | Some a => Some (Return tt, <[r := np_setitem_mask a msk v]> h)
           | None => None
           end.

Definition create_masked_stipple_st
  (stipple_img mask_img : ref) (threshold : float) : M ref :=
  s <~ load stipple_img ;;
  m <~ load mask_img ;;
  if bool_decide (shape s ≠ shape m) then
    raise (ValueError (shape_mismatch_message (shape s) (shape m)))
  else
    masked_stipple <~ alloc (np_copy s) ;;
    m <~ load mask_img ;;
    let mask_region := np_less m threshold in
    setitem_mask masked_stipple mask_region 1%float ;;;
    s <~ load stipple_img ;;
    let removed_count := np_sum (np_and (np_equal s 0%float) mask_region) in
    let total_stipples := np_sum (np_equal s 0%float) in
    ret masked_stipple.

(** ** The specification's vocabulary *)

(** The coordinates [(y, x)] of an [H]-by-[W] grid. *)
Definition coords (H W : nat) : list (nat * nat) :=
  y ← seq 0 H; x ← seq 0 W; [(y, x)].

(** [(y, x)] is in the masked region: [mask[y, x] < threshold]. *)
Definition masked_at (mask : ndarray float) (threshold : float)
  (c : nat * nat) : bool :=
  match get2 mask c.1 c.2 with
  | Some v => PrimFloat.ltb v threshold
  | None => false
  end.

(** [(y, x)] holds ink: [stippled[y, x] == 0.0]. *)
Definition ink_at (stippled : ndarray float) (c : nat * nat) : bool :=
  match get2 stippled c.1 c.2 with
  | Some v => PrimFloat.eqb v 0%float
  | None => false
  end.

(** How many coordinates of the grid satisfy [p]. *)
Definition count_coords (H W : nat) (p : nat * nat -> bool) : Z :=
  Z.of_nat (length (List.filter p (coords H W))).

(** A grayscale field of [H] rows and [W] columns. *)
Definition field (H W : nat) (a : ndarray float) : Prop :=
  wf a ∧ shape a = [H; W].


Definition total_ink_samples (H W : nat) (stippled : ndarray float) : Z :=
  count_coords H W (ink_at stippled).

Definition removed_ink_samples (H W : nat)
  (stippled mask : ndarray float) (threshold : float) : Z :=
  count_coords H W (fun c => ink_at stippled c && masked_at mask threshold c).

(** ** Order facts of binary64 comparisons *)

Module F64.

(** The position of a non-NaN number in the order that [SFcompare]
    implements: class first, then exponent, then mantissa. *)
Definition key (f : spec_float) : option (Z * Z * Z) :=
  match f with
  | S754_nan => None
  | S754_infinity true => Some (-2, 0, 0)
  | S754_infinity false => Some (2, 0, 0)
  | S754_zero _ => Some (0, 0, 0)
  | S754_finite true m e => Some (-1, - e, Z.neg m)
  | S754_finite false m e => Some (1, e, Z.pos m)
  end.

Definition lex_compare (k1 k2 : Z * Z * Z) : comparison :=
  let '(a1, b1, c1) := k1 in
  let '(a2, b2, c2) := k2 in
  match a1 ?= a2 with
  | Eq => match b1 ?= b2 with
          | Eq => c1 ?= c2
          | c => c
          end
  | c => c
  end.

Definition key_compare (f1 f2 : spec_float) : option comparison :=
  match key f1, key f2 with
  | Some k1, Some k2 => Some (lex_compare k1 k2)
  | _, _ => None
  end.

Definition lex_lt (k1 k2 : Z * Z * Z) : Prop := lex_compare k1 k2 = Lt.
Definition lex_le (k1 k2 : Z * Z * Z) : Prop := lex_compare k1 k2 <> Gt.

(** The position of a binary64 number, through its specification. *)
Definition fkey (x : float) : option (Z * Z * Z) := key (Prim2SF x).

Definition lt (x y : float) : Prop := PrimFloat.ltb x y = true.
Definition le (x y : float) : Prop := PrimFloat.leb x y = true.

End F64.

(** What the caller can see of an outcome: the array behind the returned
    reference, or the exception. *)
Definition observe (res : result ref) (h : store)
  : result (option (ndarray float)) :=
  result_map (fun r => h !! r) res.

(** ** The characters of the error message *)

(** Every character of the string is in the class [p]. *)
Fixpoint all_chars (p : ascii -> bool) (s : string) : bool :=
  match s with
  | EmptyString => true
  | String c s' => p c && all_chars p s'
  end.

Definition is_digit (c : ascii) : bool :=
  bool_decide (c ∈ ["0"; "1"; "2"; "3"; "4"; "5"; "6"; "7"; "8"; "9"]%char).

Definition tuple_char (c : ascii) : bool :=
  is_digit c || bool_decide (c ∈ ["("; ")"; ","; " "]%char).

(** The elements of a non-empty tuple and the closing parenthesis. *)
Definition tuple_tail (l : list nat) : string :=
  String.concat ", " (pretty <$> l) +:+ ")".

(** ** Sample fields *)

(** A 1-by-2 stippled field and a mask with one sample on the default
    threshold. *)
Definition example_stippled : ndarray float :=
  NDArray [1; 2]%nat [0%float; 0.25%float].

Definition example_mask : ndarray float :=
  NDArray [1; 2]%nat [0.5%float; 0%float].

(** The 4-by-4 scenario: ink everywhere; a mask whose left two columns are
    [0.0] and whose right two columns are [1.0]. *)
Definition example_unit_mask : ndarray float :=
  NDArray [1; 2]%nat [1%float; 0%float].

Definition scenario_stippled : ndarray float :=
  NDArray [4; 4]%nat (replicate 16 0%float).

Definition scenario_mask : ndarray float :=
  NDArray [4; 4]%nat (mjoin (replicate 4 [0%float; 0%float; 1%float; 1%float])).

Definition scenario_output : ndarray float :=
  NDArray [4; 4]%nat (mjoin (replicate 4 [1%float; 1%float; 0%float; 0%float])).

(** Fields of different shapes, and a store that holds the example fields. *)
Definition example_wide : ndarray float :=
  NDArray [2; 3]%nat (replicate 6 0%float).

Definition example_store : store :=
  <[2%positive := example_mask]> (<[1%positive := example_stippled]> ∅).

Definition example_store_other : store :=
  <[5%positive := example_mask]> (<[7%positive := example_stippled]> ∅).

Definition example_store_mismatch : store :=
  <[2%positive := example_wide]> (<[1%positive := example_stippled]> ∅).

(** ** [create_block_letter_s]: choosing a font *)

(** The candidate files, in the order the source lists them. *)
Definition font_paths : list string :=
  [ "C:/Windows/Fonts/arialbd.ttf";
    "C:/Windows/Fonts/calibrib.ttf";
    "C:/Windows/Fonts/timesbd.ttf";
    "C:/Windows/Fonts/impact.ttf";
    "/System/Library/Fonts/Supplemental/Arial Bold.ttf";
    "/System/Library/Fonts/Helvetica.ttc";
    "/Library/Fonts/Arial Bold.ttf";
    "/usr/share/fonts/truetype/dejavu/DejaVuSans-Bold.ttf";
    "/usr/share/fonts/truetype/liberation/LiberationSans-Bold.ttf" ].

Section FontSearch.

(** The machine the code runs on: [os.path.exists], [ImageFont.truetype]
    ([None] when it raises) and [ImageFont.load_default] ([None] when it
    raises). *)
Context {font : Type}.
Variable path_exists : string -> bool.
Variable truetype : string -> Z -> option font.
Variable load_default : option font.

(** A candidate the loop can stop at: the file exists and loads. *)
Definition usable (font_size : Z) (p : string) : Prop :=
  path_exists p = true ∧ is_Some (truetype p font_size).

(** The [for] loop over the candidates: a file that does not exist is
    skipped, one that fails to load is skipped ([continue]), the first that
    loads ends the loop ([break]). *)
Fixpoint search_fonts (paths : list string) (font_size : Z) : option font :=
  match paths with
  | [] => None
  | font_path :: rest =>
      if path_exists font_path then
        match truetype font_path font_size with
        | Some f => Some f
        | None => search_fonts rest font_size
        end
      else search_fonts rest font_size
  end.

(** The font the letter is drawn with; [None] when even the default font
    cannot be had and its exception leaves the function. *)
Definition select_font (font_size : Z) : option font :=
  match search_fonts font_paths font_size with
  | Some f => Some f
  | None =>
      match truetype "arial.ttf" font_size with
      | Some f => Some f
      | None => load_default
      end
  end.

End FontSearch.

(** ** [create_block_letter_s]: placing the letter *)

(** The position handed to [draw.text], from the bounding box
    [(left, top, right, bottom)] of the text drawn at the origin; [//] is
    floor division. *)
Definition text_position (height width : Z) (bbox : Z * Z * Z * Z) : Z * Z :=
  let '(b0, b1, b2, b3) := bbox in
  let text_width := b2 - b0 in
  let text_height := b3 - b1 in
  let x := (width - text_width) / 2 - b0 in
  let y := (height - text_height) / 2 - b1 in
  (x, y).

(** ** [create_block_letter_s]: from pixels to samples *)

(** An integer as a binary32 number (exact below 2^24). *)
Definition f32_of_Z (z : Z) : spec_float := binary_normalize 24 128 z 0 false.

(** One sample of [np.array(img, dtype=np.float32) / 255.0]: the 8-bit
    pixel as a binary32 number, divided in binary32 by 255. *)
Definition normalize_pixel (p : Z) : spec_float :=
  SFdiv 24 128 (f32_of_Z p) (f32_of_Z 255).

(** A binary32 number read as a binary64 number of the same value: the way a
    float32 sample meets the Python [float] threshold of the compositor. *)
Definition widen (f : spec_float) : float := SF2Prim f.

(** The values an 8-bit pixel can take. *)
Definition pixel_values : list Z := Z.of_nat <$> seq 0 256.

(** What is checked of each pixel value, by evaluation: its sample is in
    range, is [0.0] or [1.0] only at the ends, is below [0.5] up to 127 and
    is below the sample of the next pixel value. *)
Definition pixel_ok (p : Z) : bool :=
  let v := widen (normalize_pixel p) in
  PrimFloat.leb 0%float v && PrimFloat.leb v 1%float &&
  Bool.eqb (PrimFloat.eqb v 0%float) (p =? 0) &&
  Bool.eqb (PrimFloat.eqb v 1%float) (p =? 255) &&
  Bool.eqb (PrimFloat.ltb v 0.5%float) (p <=? 127).

Definition pixel_next_ok (p : Z) : bool :=
  PrimFloat.ltb (widen (normalize_pixel p)) (widen (normalize_pixel (p + 1))).

(** The array the rasterizer returns for a canvas of 8-bit pixels. *)
Definition letter_array (sh : list nat) (pixels : list Z) : ndarray float :=
  NDArray sh (map (fun p => widen (normalize_pixel p)) pixels).

(** ** [create_block_letter_s]: the whole function *)

(** A Python [int] as a [float] (round to nearest even), as the product
    [min_dimension * font_size_ratio] converts it. *)
Definition float_of_int (n : Z) : float :=
  SF2Prim (binary_normalize 53 1024 n 0 false).

(** [int(x)] of a [float]: truncation towards zero; [None] for an infinity
    ([OverflowError]) and for a NaN ([ValueError]). *)
Definition int_of_float (x : float) : option Z :=
  match Prim2SF x with
  | S754_zero _ => Some 0
  | S754_finite s m e =>
      let magnitude :=
        if 0 <=? e then Z.pos m * 2 ^ e else Z.pos m / 2 ^ (- e) in
      Some (if s then - magnitude else magnitude)
  | S754_infinity _ => None
  | S754_nan => None
  end.

Section BlockLetter.

(** Pillow, as far as the function uses it: the fonts of the machine, the
    bounding box of a text drawn at the origin, and the drawing of a text
    in black on a canvas of 8-bit pixels. *)
Context {font : Type}.
Variable path_exists : string -> bool.
Variable truetype : string -> Z -> option font.
Variable load_default : option font.
Variable textbbox : string -> font -> Z * Z * Z * Z.
Variable draw_text : ndarray Z -> Z * Z -> string -> font -> ndarray Z.

(** The array returned, or [None] when an exception leaves the function
    (no size for the font, or no font at all). *)
Definition create_block_letter_s
  (height width : nat) (letter : string) (font_size_ratio : float)
  : option (ndarray float) :=
  let img := NDArray [height; width] (replicate (height * width) 255) in
  let min_dimension := Z.min (Z.of_nat height) (Z.of_nat width) in
  font_size ←
    int_of_float (PrimFloat.mul (float_of_int min_dimension) font_size_ratio);
  font ← select_font path_exists truetype load_default font_size;
  let bbox := textbbox letter font in
  let '(b0, b1, b2, b3) := bbox in
  let text_width := b2 - b0 in
  let text_height := b3 - b1 in
  let x := (Z.of_nat width - text_width) / 2 - b0 in
  let y := (Z.of_nat height - text_height) / 2 - b1 in
  let img := draw_text img (x, y) letter font in
  let letter_array := letter_array (shape img) (data img) in
  Some letter_array.

End BlockLetter.

(** What Pillow promises of drawing on a canvas: the canvas keeps its size
    and its pixels stay 8-bit values. *)
Definition draw_contract {font}
  (draw_text : ndarray Z -> Z * Z -> string -> font -> ndarray Z) : Prop :=
  forall img xy letter f,
    shape (draw_text img xy letter f) = shape img ∧
    (wf img -> wf (draw_text img xy letter f)) ∧
    (Forall (fun p => 0 <= p <= 255) (data img) ->
     Forall (fun p => 0 <= p <= 255) (data (draw_text img xy letter f))).

(** ** [create_statistics_meme]: the calls to the plotting library *)

(** The calls the function makes to matplotlib, with their arguments; an
    axis is named by its index in the row of subplots. *)
Inductive plot_call : Type :=
| Subplots (nrows ncols : Z) (figsize : Z * Z)
| SetFacecolor (color : string)
| Imshow (ax : nat) (img : ndarray float) (cmap : string) (vmin vmax : Z)
| AxisOff (ax : nat)
| SetTitle (ax : nat) (label : string) (fontsize : Z) (fontweight : string)
    (pad : Z)
| TightLayout (pad : float)
| Savefig (output_path : string) (dpi : Z) (bbox_inches : string)
    (facecolor : string)
| Close.

(** Why a call of the function ends early: the [ValueError] of
    [h, w = original_img.shape] on a shape of [ndim] entries, or an
    exception raised inside a library call, which the function lets
    through. *)
Inductive meme_error (E : Type) : Type :=
| Unpack (ndim : nat)
| Library (e : E).
Arguments Unpack {E} _.
Arguments Library {E} _.

(** A step of the function: from the library calls made so far to the calls
    made after it, with an error or a value. *)
Definition Plot (E A : Type) : Type :=
  list plot_call -> list plot_call * (meme_error E + A).

Definition plot_ret {E A} (a : A) : Plot E A := fun calls => (calls, inr a).

Definition plot_throw {E A} (e : meme_error E) : Plot E A :=
  fun calls => (calls, inl e).

Definition plot_bind {E A B} (c : Plot E A) (k : A -> Plot E B) : Plot E B :=
  fun calls =>
    match c calls with
    | (calls', inr a) => k a calls'
    | (calls', inl e) => (calls', inl e)
    end.

Notation "x <~~ c ;; k" := (plot_bind c (fun x => k))
  (at level 20, c at level 99, k at level 200, only parsing).

Notation "c ;;;; k" := (plot_bind c (fun _ => k))
  (at level 99, k at level 200, only parsing, right associativity).

(** The body of a [for] loop, once per element. *)
Fixpoint for_each {E A} (l : list A) (body : A -> Plot E unit) : Plot E unit :=
  match l with
  | [] => plot_ret tt
  | a :: l' => body a ;;;; for_each l' body
  end.

Section Meme.

(** What the function does not decide: the cast of [(img * 255)] to
    [np.uint8], sample by sample; Pillow's [fromarray], [resize] to
    [(w, h)] and the reading back of the pixels, which may raise; and
    whether a call to matplotlib raises. *)
Context {E : Type}.
Variable quantize : float -> Z.
Variable pil_resize : ndarray Z -> nat -> nat -> E + ndarray Z.
Variable raises : plot_call -> option E.

(** [h, w = original_img.shape]. *)
Definition unpack_shape (sh : list nat) : Plot E (nat * nat) :=
  match sh with
  | [h; w] => plot_ret (h, w)
  | _ => plot_throw (Unpack (length sh))
  end.

(** The body of each [if img.shape != (h, w)]: the image goes through 8-bit
    pixels, is resized and comes back as float32 samples. *)
Definition resample (img : ndarray float) (h w : nat) : Plot E (ndarray float) :=
  let pixels := NDArray (shape img) (map quantize (data img)) in
  match pil_resize pixels w h with
  | inl e => plot_throw (Library e)
  | inr resized => plot_ret (letter_array (shape resized) (data resized))
  end.

Definition reconcile (img : ndarray float) (h w : nat) : Plot E (ndarray float) :=
  if bool_decide (shape img ≠ [h; w]) then resample img h w else plot_ret img.

(** How a panel ends up displayed as [p]: as it is, or resampled. *)
Definition settled (img : ndarray float) (h w : nat) (p : ndarray float)
  : Prop :=
  (shape img = [h; w] ∧ p = img) ∨
  (shape img <> [h; w] ∧
   exists resized,
     pil_resize (NDArray (shape img) (map quantize (data img))) w h
       = inr resized ∧
     p = letter_array (shape resized) (data resized)).

(** One call to matplotlib. *)
Definition call (c : plot_call) : Plot E unit :=
  fun calls =>
    match raises c with
    | Some e => (calls ++ [c], inl (Library e))
    | None => (calls ++ [c], inr tt)
    end.

Definition create_statistics_meme
  (original_img stipple_img block_letter_img masked_stipple_img : ndarray float)
  (output_path : string) (dpi : Z) (background_color : string) : Plot E unit :=
  hw <~~ unpack_shape (shape original_img) ;;
  let '(h, w) := hw in
  stipple_img <~~ reconcile stipple_img h w ;;
  block_letter_img <~~ reconcile block_letter_img h w ;;
  masked_stipple_img <~~ reconcile masked_stipple_img h w ;;
  call (Subplots 1 4 (16, 4)) ;;;;
  let axes := [0; 1; 2; 3]%nat in
  call (SetFacecolor background_color) ;;;;
  let labels := ["Reality"; "Your Model"; "Selection Bias"; "Estimate"] in
  let images :=
    [original_img; stipple_img; block_letter_img; masked_stipple_img] in
  for_each (zip axes (zip images labels))
    (fun '(ax, (img, label)) =>
       call (Imshow ax img "gray" 0 1) ;;;;
       call (AxisOff ax) ;;;;
       call (SetTitle ax label 14 "bold" 10)) ;;;;
  call (TightLayout 2%float) ;;;;
  call (Savefig output_path dpi "tight" background_color) ;;;;
  call Close ;;;;
  plot_ret tt.

End Meme.

(** The calls that draw one panel, and all the calls of a run in which
    nothing raises, for the four images that end up displayed. *)
Definition panel_calls (ax : nat) (img : ndarray float) (label : string)
  : list plot_call :=
  [Imshow ax img "gray" 0 1; AxisOff ax; SetTitle ax label 14 "bold" 10].

Definition planned_calls (p0 p1 p2 p3 : ndarray float)
  (output_path : string) (dpi : Z) (background_color : string)
  : list plot_call :=
  [Subplots 1 4 (16, 4); SetFacecolor background_color]
  ++ panel_calls 0 p0 "Reality" ++ panel_calls 1 p1 "Your Model"
  ++ panel_calls 2 p2 "Selection Bias" ++ panel_calls 3 p3 "Estimate"
  ++ [TightLayout 2%float;
      Savefig output_path dpi "tight" background_color; Close].

(** What Pillow promises of [resize((w, h))]: an image of [h] rows and [w]
    columns of 8-bit pixels. *)
Definition resize_contract {E}
  (pil_resize : ndarray Z -> nat -> nat -> E + ndarray Z) : Prop :=
  forall pixels w h resized,
    pil_resize pixels w h = inr resized ->
    shape resized = [h; w] ∧ Forall (fun p => 0 <= p <= 255) (data resized).

(** ** The dtype of the mask *)

(** The float dtypes of the pipeline: the stippled image is float64, the
    block letter is float32.  An array of either dtype is an [ndarray float]
    whose samples are the binary64 numbers of the same values. *)
Inductive dtype : Type :=
| float32
| float64.

(** A number converted to binary32, rounding to nearest even: what
    [np.float32(v)] holds. *)
Definition round_f32 (v : float) : spec_float :=
  match Prim2SF v with
  | S754_finite s m e => binary_round 24 128 s m e
  | f => f
  end.

(** A number as an array of the given dtype holds it, and as NumPy converts
    a Python [float] before it compares it with such an array. *)
Definition cast (dt : dtype) (v : float) : spec_float :=
  match dt with
  | float32 => round_f32 v
  | float64 => Prim2SF v
  end.

(** [v < t], [v <= t] and [v == t] as computed in the dtype [dt]. *)
Definition less (dt : dtype) (v t : float) : bool :=
  SFltb (cast dt v) (cast dt t).


Definition equal (dt : dtype) (v t : float) : bool :=
  SFeqb (cast dt v) (cast dt t).


(** [a < t] for an array of dtype [dt] and a Python [float]: the scalar is
    converted to the dtype of the array and the comparison is made there. *)
Definition np_less_dtype (dt : dtype) (a : ndarray float) (t : float)
  : ndarray bool :=
  NDArray (shape a) (map (fun v => less dt v t) (data a)).

(** [create_masked_stipple] for a mask of dtype [mask_dtype].  The stippled
    image may be of either dtype: it is compared with [0.0] and assigned
    [1.0], which both dtypes hold exactly. *)
Definition create_masked_stipple_locals_dtype (mask_dtype : dtype)
  (stipple_img mask_img : ndarray float) (threshold : float) : result locals :=
  if bool_decide (shape stipple_img ≠ shape mask_img) then
    Raise (ValueError
             (shape_mismatch_message (shape stipple_img) (shape mask_img)))
  else
    let masked_stipple := np_copy stipple_img in
    let mask_region := np_less_dtype mask_dtype mask_img threshold in
    let masked_stipple := np_setitem_mask masked_stipple mask_region 1%float in
    let removed_count :=
      np_sum (np_and (np_equal stipple_img 0%float) mask_region) in
    let total_stipples := np_sum (np_equal stipple_img 0%float) in
    Return (Locals masked_stipple mask_region removed_count total_stipples).

Definition create_masked_stipple_dtype (mask_dtype : dtype)
  (stipple_img mask_img : ndarray float) (threshold : float)
  : result (ndarray float) :=
  result_map masked_stipple
    (create_masked_stipple_locals_dtype mask_dtype stipple_img mask_img
       threshold).






(** ** Classes of samples *)

(** A sample in the closed interval [0, 1], the range the docstrings
    promise. *)
Definition unit_sample (v : float) : Prop :=
  PrimFloat.leb 0%float v = true ∧ PrimFloat.leb v 1%float = true.

(** A sample of a pure stipple image: a dot ([0.0]) or background ([1.0]). *)
Definition binary_sample (v : float) : Prop :=
  PrimFloat.eqb v 0%float = true ∨ PrimFloat.eqb v 1%float = true.

(** A NaN is the only number different from itself. *)
Definition is_nan (v : float) : Prop := PrimFloat.eqb v v = false.

(** What can be said of the panel [p] displayed for the input [img]: it has
    the shape of the original; it is the input itself when that already
    had this shape, and otherwise its samples lie in [0, 1]. *)
Definition displayed (img : ndarray float) (h w : nat) (p : ndarray float)
  : Prop :=
  shape p = [h; w] ∧ (shape img = [h; w] -> p = img) ∧
  (shape img <> [h; w] -> Forall unit_sample (data p)).

(** ** Sample machines *)

Definition example_quantize : float -> Z := fun _ => 0.

Definition example_resize : ndarray Z -> nat -> nat -> unit + ndarray Z :=
  fun _ w h => inr (NDArray [h; w] (replicate (h * w) 0)).

Definition example_resize_fails : ndarray Z -> nat -> nat -> unit + ndarray Z :=
  fun _ _ _ => inl tt.

Definition example_no_raise : plot_call -> option unit := fun _ => None.

Definition example_save_raises : plot_call -> option unit :=
  fun c => match c with Savefig _ _ _ _ => Some tt | _ => None end.

(** A machine without any font file, where only the default font loads,
    and a drawing that leaves the canvas as it is. *)
Definition example_no_file : string -> bool := fun _ => false.

Definition example_truetype : string -> Z -> option string := fun _ _ => None.

Definition example_default : option string := Some "default".

Definition example_textbbox : string -> string -> Z * Z * Z * Z :=
  fun _ _ => (0, 0, 1, 1).

Definition example_draw : ndarray Z -> Z * Z -> string -> string -> ndarray Z :=
  fun img _ _ _ => img.

Definition example_vector : ndarray float :=
  NDArray [3]%nat [0%float; 0.25%float; 1%float].

(** * Properties *)

(** ** Binary64 comparisons are those of a lexicographic order *)

Module F64Facts.
Import F64.

Ltac cases_compare :=
  repeat match goal with
         | H : context [?a ?= ?b] |- _ => revert H
         end;
  repeat match goal with
         | |- context [?a ?= ?b] => destruct (Z.compare_spec a b); subst
         end;
  intros; try congruence; try lia.

Lemma lex_compare_refl k : lex_compare k k = Eq.
Proof. destruct k as [[a b] c]. simpl. by rewrite !Z.compare_refl. Qed.

Lemma lex_lt_le_trans k1 k2 k3 :
  lex_compare k1 k2 = Lt -> lex_compare k2 k3 <> Gt -> lex_compare k1 k3 = Lt.
Proof.
  destruct k1 as [[a1 b1] c1], k2 as [[a2 b2] c2], k3 as [[a3 b3] c3].
  unfold lex_compare. cases_compare.
Qed.

Lemma lex_le_lt_trans k1 k2 k3 :
  lex_compare k1 k2 <> Gt -> lex_compare k2 k3 = Lt -> lex_compare k1 k3 = Lt.
Proof.
  destruct k1 as [[a1 b1] c1], k2 as [[a2 b2] c2], k3 as [[a3 b3] c3].
  unfold lex_compare. cases_compare.
Qed.

Lemma lex_le_trans k1 k2 k3 :
  lex_compare k1 k2 <> Gt -> lex_compare k2 k3 <> Gt -> lex_compare k1 k3 <> Gt.
Proof.
  destruct k1 as [[a1 b1] c1], k2 as [[a2 b2] c2], k3 as [[a3 b3] c3].
  unfold lex_compare. cases_compare.
Qed.

Lemma SFcompare_key f1 f2 : SFcompare f1 f2 = key_compare f1 f2.
Proof.
  destruct f1 as [[|]|[|]| |[|] m1 e1], f2 as [[|]|[|]| |[|] m2 e2];
    try reflexivity; unfold key_compare; simpl.
  rewrite Z.compare_opp, (Z.compare_antisym e1 e2).
  by destruct (e1 ?= e2).
Qed.

Lemma ltb_fkey x y :
  PrimFloat.ltb x y =
  match fkey x, fkey y with
  | Some k1, Some k2 =>
      match lex_compare k1 k2 with Lt => true | _ => false end
  | _, _ => false
  end.
Proof.
  rewrite ltb_spec. unfold SFltb. rewrite SFcompare_key.
  unfold key_compare, fkey. by destruct (key (Prim2SF x)), (key (Prim2SF y)).
Qed.

Lemma leb_fkey x y :
  PrimFloat.leb x y =
  match fkey x, fkey y with
  | Some k1, Some k2 =>
      match lex_compare k1 k2 with Gt => false | _ => true end
  | _, _ => false
  end.
Proof.
  rewrite leb_spec. unfold SFleb. rewrite SFcompare_key.
  unfold key_compare, fkey.
  by destruct (key (Prim2SF x)), (key (Prim2SF y)).
Qed.

Lemma eqb_fkey x y :
  PrimFloat.eqb x y =
  match fkey x, fkey y with
  | Some k1, Some k2 =>
      match lex_compare k1 k2 with Eq => true | _ => false end
  | _, _ => false
  end.
Proof.
  rewrite FloatAxioms.eqb_spec. unfold SFeqb. rewrite SFcompare_key.
  unfold key_compare, fkey. by destruct (key (Prim2SF x)), (key (Prim2SF y)).
Qed.

Lemma ltb_true x y :
  PrimFloat.ltb x y = true <->
  exists k1 k2, fkey x = Some k1 ∧ fkey y = Some k2 ∧ lex_compare k1 k2 = Lt.
Proof.
  rewrite ltb_fkey. split.
  - destruct (fkey x) as [k1|]; [|done]. destruct (fkey y) as [k2|]; [|done].
    destruct (lex_compare k1 k2) eqn:E; try done. eauto.
  - by intros (k1 & k2 & -> & -> & ->).
Qed.

Lemma leb_true x y :
  PrimFloat.leb x y = true <->
  exists k1 k2, fkey x = Some k1 ∧ fkey y = Some k2 ∧ lex_compare k1 k2 <> Gt.
Proof.
  rewrite leb_fkey. split.
  - destruct (fkey x) as [k1|]; [|done]. destruct (fkey y) as [k2|]; [|done].
    destruct (lex_compare k1 k2) eqn:E; try done;
      intros _; exists k1, k2; by rewrite E.
  - intros (k1 & k2 & -> & -> & H). by destruct (lex_compare k1 k2).
Qed.

Lemma lt_le_trans x y z : lt x y -> le y z -> lt x z.
Proof.
  unfold lt, le. rewrite !ltb_true, leb_true.
  intros (k1 & k2 & Hx & Hy & H12) (k2' & k3 & Hy' & Hz & H23).
  simplify_eq. exists k1, k3. eauto using lex_lt_le_trans.
Qed.

Lemma le_lt_trans x y z : le x y -> lt y z -> lt x z.
Proof.
  unfold lt, le. rewrite !ltb_true, leb_true.
  intros (k1 & k2 & Hx & Hy & H12) (k2' & k3 & Hy' & Hz & H23).
  simplify_eq. exists k1, k3. eauto using lex_le_lt_trans.
Qed.

Lemma le_trans x y z : le x y -> le y z -> le x z.
Proof.
  unfold le. rewrite !leb_true.
  intros (k1 & k2 & Hx & Hy & H12) (k2' & k3 & Hy' & Hz & H23).
  simplify_eq. exists k1, k3. eauto using lex_le_trans.
Qed.

Lemma lt_irrefl x : ~ lt x x.
Proof.
  unfold lt. rewrite ltb_true. intros (k1 & k2 & Hx & Hy & H12).
  simplify_eq. by rewrite lex_compare_refl in H12.
Qed.

Lemma lt_not_le x y : lt x y -> ~ le y x.
Proof. intros Hxy Hyx. apply (lt_irrefl x). eapply lt_le_trans; eauto. Qed.

Lemma eqb_not_ltb x y : PrimFloat.eqb x y = true -> PrimFloat.ltb x y = false.
Proof.
  rewrite eqb_fkey, ltb_fkey.
  destruct (fkey x) as [k1|], (fkey y) as [k2|]; try done.
  by destruct (lex_compare k1 k2).
Qed.

(** A number that compares with anything is not a NaN, so it is below or
    equal to itself. *)
Lemma le_refl_l x y : le x y -> le x x.
Proof.
  unfold le. rewrite !leb_true. intros (k1 & k2 & Hx & Hy & H12).
  exists k1, k1. by rewrite lex_compare_refl.
Qed.


End F64Facts.

(** ** Lists of samples *)

Section Samples.
Context {A : Type}.
Implicit Types (l : list A) (msk : list bool) (v : A).

Lemma length_assign_where l msk v : length (assign_where l msk v) = length l.
Proof.
  revert msk. induction l as [|x l IH]; intros [|b msk]; simpl; auto.
Qed.

Lemma lookup_assign_where l msk v (i : nat) (x : A) (b : bool) :
  l !! i = Some x -> msk !! i = Some b ->
  assign_where l msk v !! i = Some (if b then v else x).
Proof.
  revert msk i. induction l as [|x0 l IH]; intros [|b0 msk] [|i]; simpl;
    try discriminate; intros Hl Hm.
  - by simplify_eq.
  - by apply IH.
Qed.

Lemma assign_where_idemp l msk v :
  assign_where (assign_where l msk v) msk v = assign_where l msk v.
Proof.
  revert msk. induction l as [|x l IH]; intros [|b msk]; simpl; auto.
  rewrite IH. by destruct b.
Qed.

Lemma assign_where_none l msk v :
  Forall (fun b => b = false) msk -> assign_where l msk v = l.
Proof.
  revert msk. induction l as [|x l IH]; intros [|b msk] H; simpl; auto.
  inversion H; subst. by rewrite IH.
Qed.

Lemma assign_where_all l msk v :
  length msk = length l -> Forall (fun b => b = true) msk ->
  assign_where l msk v = replicate (length l) v.
Proof.
  revert msk. induction l as [|x l IH]; intros [|b msk] Hlen H; simpl in *;
    try discriminate; auto.
  inversion H; subst. rewrite IH; auto.
Qed.

End Samples.

Lemma sum_bool_nonneg l : 0 <= sum_bool l.
Proof. induction l as [|[|] l IH]; simpl; lia. Qed.





(** ** Coordinates and row-major positions *)






(** ** Two-dimensional indexing *)







(** ** The value returned and the locals *)

Lemma create_masked_stipple_locals_eq s m t :
  shape s = shape m ->
  create_masked_stipple_locals s m t =
  Return (Locals (np_setitem_mask (np_copy s) (np_less m t) 1%float)
                 (np_less m t)
                 (np_sum (np_and (np_equal s 0%float) (np_less m t)))
                 (np_sum (np_equal s 0%float))).
Proof.
  intros Hs. unfold create_masked_stipple_locals.
  rewrite bool_decide_eq_false_2; [done|]. by intros Hne.
Qed.

Lemma create_masked_stipple_eq s m t :
  shape s = shape m ->
  create_masked_stipple s m t =
  Return (NDArray (shape s)
            (assign_where (data s)
               (map (fun v => PrimFloat.ltb v t) (data m)) 1%float)).
Proof.
  intros Hs. unfold create_masked_stipple.
  by rewrite create_masked_stipple_locals_eq.
Qed.

Lemma create_masked_stipple_raise s m t :
  shape s <> shape m ->
  create_masked_stipple s m t =
  Raise (ValueError (shape_mismatch_message (shape s) (shape m))).
Proof.
  intros Hs. unfold create_masked_stipple, create_masked_stipple_locals.
  by rewrite bool_decide_eq_true_2.
Qed.

Lemma field_same_shape H W s m : field H W s -> field H W m -> shape s = shape m.
Proof. intros [_ ->] [_ ->]. done. Qed.




(** ** The ink counts *)








Lemma ndarray_eta {A} (a : ndarray A) : NDArray (shape a) (data a) = a.
Proof. by destruct a. Qed.

(** ** Monotonicity and idempotence *)




(** C10: masking the output of a call again, with the same mask and the
    same threshold, returns that output unchanged. *)
Theorem masking_idempotent (H W : nat) (s m : ndarray float) (t : float) :
  field H W s -> field H W m ->
  exists out,
    create_masked_stipple s m t = Return out ∧
    create_masked_stipple out m t = Return out.
Proof.
  intros Hs Hm. pose proof (field_same_shape H W s m Hs Hm) as Hsh.
  eexists. split; [by apply create_masked_stipple_eq|].
  rewrite create_masked_stipple_eq by done. simpl.
  by rewrite assign_where_idemp.
Qed.

Lemma masking_idempotent_witness :
  field 1 2 example_stippled ∧ field 1 2 example_mask ∧
  exists out,
    create_masked_stipple example_stippled example_mask 0.5%float
      = Return out ∧
    create_masked_stipple out example_mask 0.5%float = Return out.
Proof.
  split; [split; reflexivity|]. split; [split; reflexivity|].
  apply (masking_idempotent 1 2 example_stippled example_mask 0.5%float);
    split; reflexivity.
Defined.

(** ** The 4-by-4 scenario *)

(** C4: all-ink 4-by-4 stippled field, mask with left two columns [0.0] and
    right two columns [1.0], threshold [0.5]: the output has left two
    columns [1.0] and right two columns [0.0]; the total ink count is 16
    and the removed ink count is 8. *)
Theorem scenario_4x4 :
  field 4 4 scenario_stippled ∧ field 4 4 scenario_mask ∧
  create_masked_stipple scenario_stippled scenario_mask 0.5%float
    = Return scenario_output ∧
  (forall y x, (y < 4)%nat -> (x < 4)%nat ->
     get2 scenario_output y x
       = Some (if decide (x < 2)%nat then 1%float else 0%float)) ∧
  result_map total_stipples
    (create_masked_stipple_locals scenario_stippled scenario_mask 0.5%float)
    = Return 16 ∧
  result_map removed_count
    (create_masked_stipple_locals scenario_stippled scenario_mask 0.5%float)
    = Return 8 ∧
  total_ink_samples 4 4 scenario_stippled = 16 ∧
  removed_ink_samples 4 4 scenario_stippled scenario_mask 0.5%float = 8.
Proof.
  repeat split; try reflexivity.
  intros y x Hy Hx.
  do 4 (destruct y as [|y]; [do 4 (destruct x as [|x]; [reflexivity|]); lia|]).
  lia.
Qed.

(** ** The store *)

Lemma fresh_lookup (h : store) : h !! fresh (dom h) = None.
Proof. apply not_elem_of_dom. apply is_fresh. Qed.

Lemma fresh_ne (h : store) (r : ref) a : h !! r = Some a -> fresh (dom h) <> r.
Proof. intros Hr Heq. rewrite <- Heq, fresh_lookup in Hr. discriminate. Qed.

(** The call on the store does what the call on values does, and puts the
    output in a new object. *)
Lemma create_masked_stipple_st_run (h : store) rs rm s m t :
  h !! rs = Some s -> h !! rm = Some m ->
  create_masked_stipple_st rs rm t h =
  Some (match create_masked_stipple s m t with
        | Return out => (Return (fresh (dom h)), <[fresh (dom h) := out]> h)
        | Raise e => (Raise e, h)
        end).
Proof.
  intros Hs Hm. unfold create_masked_stipple_st, bind, load.
  rewrite Hs, Hm. destruct (decide (shape s = shape m)) as [Heq|Hne].
  - rewrite create_masked_stipple_eq by done.
    rewrite bool_decide_eq_false_2 by (by intros Hne).
    unfold alloc, setitem_mask, ret.
    rewrite (lookup_insert_ne h _ rm) by (by eapply fresh_ne).
    rewrite Hm, lookup_insert_eq.
    rewrite (lookup_insert_ne _ _ rs) by (by eapply fresh_ne).
    rewrite (lookup_insert_ne h _ rs) by (by eapply fresh_ne).
    rewrite Hs, insert_insert_eq. done.
  - rewrite create_masked_stipple_raise by done.
    by rewrite bool_decide_eq_true_2.
Qed.

(** ** The error message names both shapes *)

Lemma all_chars_app p s1 s2 :
  all_chars p (s1 +:+ s2) = all_chars p s1 && all_chars p s2.
Proof. induction s1 as [|c s1 IH]; simpl; [done|]. by rewrite IH, andb_assoc. Qed.

Lemma all_chars_impl (p q : ascii -> bool) s :
  (forall c, p c = true -> q c = true) -> all_chars p s = true -> all_chars q s = true.
Proof.
  intros Hpq. induction s as [|c s IH]; simpl; [done|].
  rewrite !andb_true_iff. intros [? ?]. auto.
Qed.

Lemma append_inj_l p s1 s2 : p +:+ s1 = p +:+ s2 -> s1 = s2.
Proof. induction p as [|c p IH]; simpl; [done|]. intros [= ?]. auto. Qed.

Lemma append_inj_char_r s1 s2 c : s1 +:+ String c "" = s2 +:+ String c "" -> s1 = s2.
Proof.
  revert s2. induction s1 as [|a s1 IH]; intros [|b s2]; simpl; try done.
  - intros [= _ H]. by destruct s2.
  - intros [= _ H]. by destruct s1.
  - intros [= -> H]. f_equal. auto.
Qed.

(** A string splits in one way at its first character outside a class. *)
Lemma split_at_first p d1 d2 c1 c2 r1 r2 :
  all_chars p d1 = true -> all_chars p d2 = true -> p c1 = false -> p c2 = false ->
  d1 +:+ String c1 r1 = d2 +:+ String c2 r2 -> d1 = d2 ∧ c1 = c2 ∧ r1 = r2.
Proof.
  revert d2. induction d1 as [|a d1 IH]; intros [|b d2]; simpl;
    rewrite ?andb_true_iff.
  - intros _ _ _ _ [= -> ->]. done.
  - intros _ [Hb _] Hc1 _ [= -> _]. congruence.
  - intros [Ha _] _ _ Hc2 [= -> _]. congruence.
  - intros [_ H1] [_ H2] Hc1 Hc2 [= -> Heq].
    destruct (IH d2 H1 H2 Hc1 Hc2 Heq) as (-> & -> & ->). done.
Qed.

Lemma pretty_N_go_digits x s :
  all_chars is_digit s = true -> all_chars is_digit (pretty_N_go x s) = true.
Proof.
  revert s. induction (N.lt_wf_0 x) as [x _ IH]; intros s Hs.
  assert (x = 0 ∨ 0 < x)%N as [->|?] by lia; [by rewrite pretty_N_go_0|].
  rewrite pretty_N_go_step by done. apply IH; [by apply N.div_lt|].
  simpl. rewrite Hs, andb_true_r.
  unfold pretty_N_char. by repeat case_match.
Qed.

Lemma pretty_nat_digits (n : nat) : all_chars is_digit (pretty n) = true.
Proof.
  unfold pretty, pretty_nat, pretty, pretty_N. case_decide; [done|].
  by apply pretty_N_go_digits.
Qed.

Lemma append_assoc' s1 s2 s3 : (s1 +:+ s2) +:+ s3 = s1 +:+ (s2 +:+ s3).
Proof.
  induction s1 as [|c s1 IH]; [done|].
  change (String c ((s1 +:+ s2) +:+ s3) = String c (s1 +:+ (s2 +:+ s3))).
  by rewrite IH.
Qed.

Lemma tuple_tail_one n : tuple_tail [n] = pretty n +:+ ")".
Proof. done. Qed.

Lemma tuple_tail_more n n' l :
  tuple_tail (n :: n' :: l) =
  pretty n +:+ String "," (String " " (tuple_tail (n' :: l))).
Proof.
  unfold tuple_tail. change (pretty <$> n :: n' :: l)
    with (pretty n :: (pretty <$> n' :: l)).
  change (String.concat ", " (pretty n :: (pretty <$> n' :: l)))
    with (pretty n +:+ ", " +:+ String.concat ", " (pretty <$> n' :: l)).
  by rewrite !append_assoc'.
Qed.

Lemma is_digit_false c : c ∈ [")"; ","; " "; "!"]%char -> is_digit c = false.
Proof.
  intros Hc. repeat (apply elem_of_cons in Hc as [->|Hc]; [done|]).
  by apply elem_of_nil in Hc.
Qed.

Lemma tuple_tail_inj l l' :
  l <> [] -> l' <> [] -> tuple_tail l = tuple_tail l' -> l = l'.
Proof.
  revert l'. induction l as [|n [|n2 l] IH]; intros [|n' [|n2' l']] Hl Hl';
    try done; rewrite ?tuple_tail_one, ?tuple_tail_more; intros Heq;
    apply split_at_first with (p := is_digit) in Heq
      as (Hp & Hc & Hr); try apply pretty_nat_digits; try done.
  - by apply (inj pretty) in Hp as ->.
  - apply (inj pretty) in Hp as ->. injection Hr as Hr.
    f_equal. by apply IH.
Qed.

Lemma repr_shape_tail sh :
  repr_shape sh =
  match sh with
  | [] => "()"
  | [n] => "(" +:+ pretty n +:+ ",)"
  | _ => "(" +:+ tuple_tail sh
  end.
Proof. by destruct sh as [|n [|n' l]]. Qed.

Lemma repr_shape_inj sh sh' : repr_shape sh = repr_shape sh' -> sh = sh'.
Proof.
  rewrite !repr_shape_tail.
  destruct sh as [|n [|n2 l]], sh' as [|n' [|n2' l']]; try done;
    simpl; intros [= Heq].
  - apply (split_at_first is_digit "" (pretty n')) in Heq as (_ & Hc & _);
      try apply pretty_nat_digits; done.
  - rewrite tuple_tail_more in Heq.
    apply (split_at_first is_digit "" (pretty n')) in Heq as (_ & Hc & _);
      try apply pretty_nat_digits; done.
  - apply (split_at_first is_digit (pretty n) "") in Heq as (_ & Hc & _);
      try apply pretty_nat_digits; done.
  - apply split_at_first with (p := is_digit) in Heq as (Hp & _ & _);
      try apply pretty_nat_digits; try done.
    by apply (inj pretty) in Hp as ->.
  - rewrite tuple_tail_more in Heq.
    apply split_at_first with (p := is_digit) in Heq as (_ & _ & Hr);
      try apply pretty_nat_digits; done.
  - rewrite tuple_tail_more in Heq.
    apply (split_at_first is_digit (pretty n) "") in Heq as (_ & Hc & _);
      try apply pretty_nat_digits; done.
  - rewrite tuple_tail_more in Heq.
    apply split_at_first with (p := is_digit) in Heq as (_ & _ & Hr);
      try apply pretty_nat_digits; done.
  - by apply tuple_tail_inj in Heq.
Qed.

Lemma pretty_nat_tuple_chars (n : nat) : all_chars tuple_char (pretty n) = true.
Proof.
  apply (all_chars_impl is_digit); [|apply pretty_nat_digits].
  intros c Hc. unfold tuple_char. by rewrite Hc.
Qed.

Lemma tuple_tail_chars l : l <> [] -> all_chars tuple_char (tuple_tail l) = true.
Proof.
  induction l as [|n [|n' l] IH]; intros Hl; [done| |].
  - rewrite tuple_tail_one, all_chars_app, pretty_nat_tuple_chars. done.
  - rewrite tuple_tail_more, all_chars_app, pretty_nat_tuple_chars.
    change (true && (true && (true && all_chars tuple_char (tuple_tail (n' :: l))))
            = true).
    by rewrite IH.
Qed.

Lemma repr_shape_chars sh : all_chars tuple_char (repr_shape sh) = true.
Proof.
  rewrite repr_shape_tail. destruct sh as [|n [|n' l]]; [done| |].
  - change (true && all_chars tuple_char (pretty n +:+ ",)") = true).
    rewrite all_chars_app, pretty_nat_tuple_chars. done.
  - change (true && all_chars tuple_char (tuple_tail (n :: n' :: l)) = true).
    by rewrite tuple_tail_chars.
Qed.

(** The message of the shape-mismatch error determines both shapes. *)
Lemma shape_mismatch_message_inj a b a' b' :
  shape_mismatch_message a b = shape_mismatch_message a' b' -> a = a' ∧ b = b'.
Proof.
  unfold shape_mismatch_message. intros Heq. apply String.app_inj in Heq.
  change (repr_shape a +:+ " " +:+ String "!" ("= mask_img " +:+ repr_shape b) =
          repr_shape a' +:+ " " +:+ String "!" ("= mask_img " +:+ repr_shape b'))
    in Heq.
  rewrite <- !append_assoc' in Heq.
  apply split_at_first with (p := tuple_char) in Heq as (Ha & _ & Hb);
    try (by rewrite all_chars_app, repr_shape_chars); try done.
  apply append_inj_char_r, repr_shape_inj in Ha.
  apply String.app_inj, repr_shape_inj in Hb. done.
Qed.

(** ** Errors *)

(** C3: if the two shapes differ the call raises the shape-mismatch error,
    whose message names both shapes (no other pair of shapes gives that
    message); nothing is returned, and on the store no object is created or
    changed. *)
Theorem shape_mismatch_raises (s m : ndarray float) (t : float) :
  shape s <> shape m ->
  create_masked_stipple s m t =
    Raise (ValueError (shape_mismatch_message (shape s) (shape m))) ∧
  create_masked_stipple_locals s m t =
    Raise (ValueError (shape_mismatch_message (shape s) (shape m))) ∧
  (forall (h : store) rs rm,
    h !! rs = Some s -> h !! rm = Some m ->
    create_masked_stipple_st rs rm t h =
      Some (Raise (ValueError (shape_mismatch_message (shape s) (shape m))), h))
  ∧
  (forall sh1 sh2,
     shape_mismatch_message sh1 sh2 =
       shape_mismatch_message (shape s) (shape m) ->
     sh1 = shape s ∧ sh2 = shape m).
Proof.
  intros Hne. split; [by apply create_masked_stipple_raise|]. split; [|split].
  - unfold create_masked_stipple_locals. by rewrite bool_decide_eq_true_2.
  - intros h rs rm Hs Hm.
    rewrite (create_masked_stipple_st_run h rs rm s m t Hs Hm).
    by rewrite create_masked_stipple_raise.
  - intros sh1 sh2. apply shape_mismatch_message_inj.
Qed.

Lemma shape_mismatch_raises_witness :
  shape example_stippled <> shape example_wide ∧
  create_masked_stipple example_stippled example_wide 0.5%float =
    Raise (ValueError (shape_mismatch_message (shape example_stippled)
                                              (shape example_wide))) ∧
  create_masked_stipple_locals example_stippled example_wide 0.5%float =
    Raise (ValueError (shape_mismatch_message (shape example_stippled)
                                              (shape example_wide))) ∧
  (forall (h : store) rs rm,
    h !! rs = Some example_stippled -> h !! rm = Some example_wide ->
    create_masked_stipple_st rs rm 0.5%float h =
      Some (Raise (ValueError (shape_mismatch_message
                                 (shape example_stippled)
                                 (shape example_wide))), h)) ∧
  (forall sh1 sh2,
     shape_mismatch_message sh1 sh2 =
       shape_mismatch_message (shape example_stippled) (shape example_wide) ->
     sh1 = shape example_stippled ∧ sh2 = shape example_wide).
Proof.
  split; [discriminate|].
  apply (shape_mismatch_raises example_stippled example_wide 0.5%float).
  discriminate.
Defined.

(** ** Effects *)

(** C7: the call does not mutate its inputs.  The output is a new object,
    distinct from both inputs, and after the call the stippled field and the
    mask hold the values they held before. *)
Theorem inputs_not_mutated (h : store) (rs rm : ref)
  (s m : ndarray float) (t : float) :
  h !! rs = Some s -> h !! rm = Some m -> shape s = shape m ->
  exists r h' out,
    create_masked_stipple_st rs rm t h = Some (Return r, h') ∧
    create_masked_stipple s m t = Return out ∧
    h !! r = None ∧ r <> rs ∧ r <> rm ∧
    h' !! r = Some out ∧ h' !! rs = Some s ∧ h' !! rm = Some m.
Proof.
  intros Hs Hm Hsh.
  rewrite (create_masked_stipple_st_run h rs rm s m t Hs Hm).
  rewrite create_masked_stipple_eq by done.
  do 3 eexists. split; [done|]. split; [done|].
  split; [apply fresh_lookup|].
  split; [by eapply fresh_ne|]. split; [by eapply fresh_ne|].
  split; [apply lookup_insert_eq|].
  split; (rewrite lookup_insert_ne; [done|by eapply fresh_ne]).
Qed.

Lemma inputs_not_mutated_witness :
  example_store !! 1%positive = Some example_stippled ∧
  example_store !! 2%positive = Some example_mask ∧
  shape example_stippled = shape example_mask ∧
  exists r h' out,
    create_masked_stipple_st 1%positive 2%positive 0.5%float example_store
      = Some (Return r, h') ∧
    create_masked_stipple example_stippled example_mask 0.5%float
      = Return out ∧
    example_store !! r = None ∧ r <> 1%positive ∧ r <> 2%positive ∧
    h' !! r = Some out ∧ h' !! 1%positive = Some example_stippled ∧
    h' !! 2%positive = Some example_mask.
Proof.
  split; [reflexivity|]. split; [reflexivity|]. split; [reflexivity|].
  apply (inputs_not_mutated example_store 1%positive 2%positive
           example_stippled example_mask 0.5%float); reflexivity.
Defined.

(** C8: the call is deterministic and has no effect but its result.  Two
    calls on equal fields and equal thresholds, in any two stores and through
    any references, give the same outcome, the one the call on values gives;
    every object that was in the store is unchanged, and the only object
    added is the one returned. *)
Theorem pure_and_deterministic (h1 h2 : store) (rs1 rm1 rs2 rm2 : ref)
  (s m : ndarray float) (t : float) :
  h1 !! rs1 = Some s -> h1 !! rm1 = Some m ->
  h2 !! rs2 = Some s -> h2 !! rm2 = Some m ->
  exists res1 h1' res2 h2',
    create_masked_stipple_st rs1 rm1 t h1 = Some (res1, h1') ∧
    create_masked_stipple_st rs2 rm2 t h2 = Some (res2, h2') ∧
    observe res1 h1' = observe res2 h2' ∧
    observe res1 h1' = result_map Some (create_masked_stipple s m t) ∧
    (forall l, is_Some (h1 !! l) -> h1' !! l = h1 !! l) ∧
    (forall l, h1' !! l <> h1 !! l -> res1 = Return l).
Proof.
  intros Hs1 Hm1 Hs2 Hm2.
  rewrite (create_masked_stipple_st_run h1 rs1 rm1 s m t Hs1 Hm1).
  rewrite (create_masked_stipple_st_run h2 rs2 rm2 s m t Hs2 Hm2).
  destruct (create_masked_stipple s m t) as [out|e].
  - do 4 eexists. split; [done|]. split; [done|]. simpl.
    rewrite !lookup_insert_eq. split; [done|]. split; [done|]. split.
    + intros l [a Hl]. rewrite lookup_insert_ne; [done|by eapply fresh_ne].
    + intros l Hl. destruct (decide (fresh (dom h1) = l)) as [->|Hne]; [done|].
      by rewrite lookup_insert_ne in Hl.
  - do 4 eexists. split; [done|]. split; [done|]. simpl.
    split; [done|]. split; [done|]. split; [done|]. intros l Hl. done.
Qed.

Lemma pure_and_deterministic_witness :
  example_store !! 1%positive = Some example_stippled ∧
  example_store !! 2%positive = Some example_mask ∧
  example_store_other !! 7%positive = Some example_stippled ∧
  example_store_other !! 5%positive = Some example_mask ∧
  exists res1 h1' res2 h2',
    create_masked_stipple_st 1%positive 2%positive 0.5%float example_store
      = Some (res1, h1') ∧
    create_masked_stipple_st 7%positive 5%positive 0.5%float
      example_store_other = Some (res2, h2') ∧
    observe res1 h1' = observe res2 h2' ∧
    observe res1 h1' =
      result_map Some
        (create_masked_stipple example_stippled example_mask 0.5%float) ∧
    (forall l, is_Some (example_store !! l) ->
               h1' !! l = example_store !! l) ∧
    (forall l, h1' !! l <> example_store !! l -> res1 = Return l).
Proof.
  do 4 (split; [reflexivity|]).
  apply (pure_and_deterministic example_store example_store_other
           1%positive 2%positive 7%positive 5%positive
           example_stippled example_mask 0.5%float); reflexivity.
Defined.

(** * Further properties of the code *)

(** ** [create_masked_stipple]: what the counts and the values keep *)

Lemma one_is_not_ink : PrimFloat.eqb 1%float 0%float = false.
Proof. reflexivity. Qed.

Lemma sum_bool_ink_split (l mv : list float) (t : float) :
  sum_bool (map (fun v => PrimFloat.eqb v 0%float) l) =
  sum_bool (zip_with andb (map (fun v => PrimFloat.eqb v 0%float) l)
                          (map (fun v => PrimFloat.ltb v t) mv)) +
  sum_bool (map (fun v => PrimFloat.eqb v 0%float)
              (assign_where l (map (fun v => PrimFloat.ltb v t) mv) 1%float)).
Proof.
  revert mv. induction l as [|x l IH]; intros [|y mv]; simpl; try lia.
  specialize (IH mv).
  destruct (PrimFloat.ltb y t); rewrite ?one_is_not_ink, ?andb_true_r,
    ?andb_false_r; destruct (PrimFloat.eqb x 0%float); lia.
Qed.

(** X2: the dots are accounted for.  The ink samples of the input are
    exactly the removed ones plus the ink samples left in the output:
    [total_stipples = removed_count + (ink samples of the result)]. *)
Theorem ink_is_conserved (s m : ndarray float) (t : float) :
  shape s = shape m ->
  exists loc,
    create_masked_stipple_locals s m t = Return loc ∧
    total_stipples loc =
      removed_count loc + np_sum (np_equal (masked_stipple loc) 0%float).
Proof.
  intros Hsh. eexists. split; [by apply create_masked_stipple_locals_eq|].
  simpl. unfold np_sum, np_and, np_equal, np_less, np_setitem_mask, np_copy.
  simpl. apply sum_bool_ink_split.
Qed.

Lemma ink_is_conserved_witness :
  shape scenario_stippled = shape scenario_mask ∧
  exists loc,
    create_masked_stipple_locals scenario_stippled scenario_mask 0.5%float
      = Return loc ∧
    total_stipples loc =
      removed_count loc + np_sum (np_equal (masked_stipple loc) 0%float).
Proof.
  split; [reflexivity|].
  apply (ink_is_conserved scenario_stippled scenario_mask 0.5%float).
  reflexivity.
Defined.

Lemma Forall_assign_where {A} (P : A -> Prop) (l : list A) msk v :
  P v -> Forall P l -> Forall P (assign_where l msk v).
Proof.
  intros Hv Hl. revert msk. induction Hl as [|x l Hx Hl IH]; intros [|b msk];
    simpl; try by constructor.
  constructor; [by destruct b|apply IH].
Qed.

(** X3: the value range of the docstring is kept.  If every stippled
    sample lies in [0, 1], so does every sample of the result, whatever the
    mask holds (values out of range, NaN) and whatever the threshold. *)
Theorem unit_range_is_kept (s m : ndarray float) (t : float) :
  shape s = shape m -> Forall unit_sample (data s) ->
  exists out,
    create_masked_stipple s m t = Return out ∧ Forall unit_sample (data out).
Proof.
  intros Hsh Hs. eexists. split; [by apply create_masked_stipple_eq|]. simpl.
  apply Forall_assign_where; [|done]. split; reflexivity.
Qed.

Lemma unit_range_is_kept_witness :
  shape example_stippled = shape example_mask ∧
  Forall unit_sample (data example_stippled) ∧
  exists out,
    create_masked_stipple example_stippled example_mask 0.5%float
      = Return out ∧ Forall unit_sample (data out).
Proof.
  assert (Hs : Forall unit_sample (data example_stippled)).
  { repeat constructor. }
  split; [reflexivity|]. split; [exact Hs|].
  apply (unit_range_is_kept example_stippled example_mask 0.5%float);
    [reflexivity|exact Hs].
Defined.

(** X4: a stipple image stays a stipple image.  If every stippled sample is
    a dot or background ([0.0] or [1.0]), so is every sample of the result:
    masking never produces a grey level. *)
Theorem binary_is_kept (s m : ndarray float) (t : float) :
  shape s = shape m -> Forall binary_sample (data s) ->
  exists out,
    create_masked_stipple s m t = Return out ∧ Forall binary_sample (data out).
Proof.
  intros Hsh Hs. eexists. split; [by apply create_masked_stipple_eq|]. simpl.
  apply Forall_assign_where; [|done]. right. reflexivity.
Qed.

Lemma binary_is_kept_witness :
  shape scenario_stippled = shape scenario_mask ∧
  Forall binary_sample (data scenario_stippled) ∧
  exists out,
    create_masked_stipple scenario_stippled scenario_mask 0.5%float
      = Return out ∧ Forall binary_sample (data out).
Proof.
  assert (Hs : Forall binary_sample (data scenario_stippled)).
  { repeat constructor; by left. }
  split; [reflexivity|]. split; [exact Hs|].
  apply (binary_is_kept scenario_stippled scenario_mask 0.5%float);
    [reflexivity|exact Hs].
Defined.

(** ** [create_masked_stipple]: NaN *)

Lemma nan_fkey v : is_nan v -> F64.fkey v = None.
Proof.
  unfold is_nan. rewrite F64Facts.eqb_fkey.
  destruct (F64.fkey v) as [k|]; [|done].
  by rewrite F64Facts.lex_compare_refl.
Qed.

Lemma ltb_nan_r v t : is_nan t -> PrimFloat.ltb v t = false.
Proof.
  intros Ht. rewrite F64Facts.ltb_fkey, (nan_fkey t Ht).
  by destruct (F64.fkey v).
Qed.

Lemma ltb_nan_l v t : is_nan v -> PrimFloat.ltb v t = false.
Proof. intros Hv. by rewrite F64Facts.ltb_fkey, (nan_fkey v Hv). Qed.

(** X5: NaN never masks and raises nothing.  With a NaN threshold the call
    returns the stippled field unchanged and removes no ink; and at any
    threshold a position whose mask sample is NaN keeps its stippled
    sample. *)
Theorem nan_masks_nothing (s m : ndarray float) (t : float) :
  shape s = shape m ->
  (is_nan t ->
   exists loc,
     create_masked_stipple_locals s m t = Return loc ∧
     masked_stipple loc = s ∧ removed_count loc = 0) ∧
  (forall (i : nat) sv mv,
     data s !! i = Some sv -> data m !! i = Some mv -> is_nan mv ->
     exists out,
       create_masked_stipple s m t = Return out ∧ data out !! i = Some sv).
Proof.
  intros Hsh. split.
  - intros Ht. eexists. split; [by apply create_masked_stipple_locals_eq|].
    simpl. unfold np_sum, np_and, np_equal, np_less, np_setitem_mask, np_copy.
    simpl.
    assert (Hnone : Forall (fun b => b = false)
                      (map (fun v => PrimFloat.ltb v t) (data m))).
    { apply Forall_fmap, Forall_true. intros v. by apply ltb_nan_r. }
    split.
    + rewrite assign_where_none by done. apply ndarray_eta.
    + pose proof (sum_bool_nonneg
        (zip_with andb (map (fun v => PrimFloat.eqb v 0%float) (data s))
                       (map (fun v => PrimFloat.ltb v t) (data m)))) as H0.
      assert (sum_bool (zip_with andb
                (map (fun v => PrimFloat.eqb v 0%float) (data s))
                (map (fun v => PrimFloat.ltb v t) (data m))) <= 0); [|lia].
      revert Hnone. generalize (map (fun v => PrimFloat.ltb v t) (data m)).
      generalize (map (fun v => PrimFloat.eqb v 0%float) (data s)).
      intros a. induction a as [|x a IH]; intros [|y b] Hb; simpl; try lia.
      apply Forall_cons in Hb as [-> Hb]. rewrite andb_false_r.
      specialize (IH b Hb). lia.
  - intros i sv mv Hsv Hmv Hnan. eexists.
    split; [by apply create_masked_stipple_eq|]. simpl.
    erewrite lookup_assign_where; [|done|by rewrite list_lookup_fmap, Hmv].
    by rewrite (ltb_nan_l mv t Hnan).
Qed.

Lemma nan_masks_nothing_witness :
  shape example_stippled = shape example_mask ∧
  (is_nan nan ->
   exists loc,
     create_masked_stipple_locals example_stippled example_mask nan
       = Return loc ∧
     masked_stipple loc = example_stippled ∧ removed_count loc = 0) ∧
  (forall (i : nat) sv mv,
     data example_stippled !! i = Some sv ->
     data example_mask !! i = Some mv -> is_nan mv ->
     exists out,
       create_masked_stipple example_stippled example_mask nan = Return out ∧
       data out !! i = Some sv).
Proof.
  split; [reflexivity|].
  apply (nan_masks_nothing example_stippled example_mask nan). reflexivity.
Defined.

(** ** [create_masked_stipple]: two masks *)

Lemma assign_where_comm {A} (l : list A) (a b : list bool) (v : A) :
  assign_where (assign_where l a v) b v = assign_where (assign_where l b v) a v.
Proof.
  revert a b. induction l as [|x l IH]; intros [|p a] [|q b]; simpl; auto.
  rewrite IH. by destruct p, q.
Qed.

(** X6: masks can be applied in either order.  Masking with a first mask
    and threshold and then with a second gives the same field as masking
    with the second and then the first. *)
Theorem two_masks_commute (s m1 m2 : ndarray float) (t1 t2 : float) :
  shape s = shape m1 -> shape s = shape m2 ->
  exists o1 o2 out,
    create_masked_stipple s m1 t1 = Return o1 ∧
    create_masked_stipple s m2 t2 = Return o2 ∧
    create_masked_stipple o1 m2 t2 = Return out ∧
    create_masked_stipple o2 m1 t1 = Return out.
Proof.
  intros H1 H2. do 3 eexists.
  split; [by apply create_masked_stipple_eq|].
  split; [by apply create_masked_stipple_eq|].
  rewrite !create_masked_stipple_eq by done. simpl.
  split; [done|]. by rewrite assign_where_comm.
Qed.

Lemma two_masks_commute_witness :
  shape example_stippled = shape example_mask ∧
  shape example_stippled = shape example_unit_mask ∧
  exists o1 o2 out,
    create_masked_stipple example_stippled example_mask 0.5%float
      = Return o1 ∧
    create_masked_stipple example_stippled example_unit_mask 0.25%float
      = Return o2 ∧
    create_masked_stipple o1 example_unit_mask 0.25%float = Return out ∧
    create_masked_stipple o2 example_mask 0.5%float = Return out.
Proof.
  split; [reflexivity|]. split; [reflexivity|].
  apply (two_masks_commute example_stippled example_mask example_unit_mask
           0.5%float 0.25%float); reflexivity.
Defined.

(** ** [create_block_letter_s]: the font that is used *)

Section FontSearchFacts.
Context {font : Type}.
Variable path_exists : string -> bool.
Variable truetype : string -> Z -> option font.
Variable load_default : option font.

Lemma search_fonts_first paths font_size (i : nat) p f :
  paths !! i = Some p ->
  path_exists p = true -> truetype p font_size = Some f ->
  (forall (j : nat) q, (j < i)%nat -> paths !! j = Some q ->
                       ~ usable path_exists truetype font_size q) ->
  search_fonts path_exists truetype paths font_size = Some f.
Proof.
  revert i. induction paths as [|q paths IH]; intros [|i] Hp He Hl Hbefore;
    simpl in *; try discriminate.
  - simplify_eq. by rewrite He, Hl.
  - assert (Hq : ~ usable path_exists truetype font_size q)
      by (apply (Hbefore 0%nat); [lia|done]).
    assert (Hrest : search_fonts path_exists truetype paths font_size = Some f).
    { apply (IH i); try done. intros j r Hj Hr.
      apply (Hbefore (S j)); [lia|done]. }
    destruct (path_exists q) eqn:Eq; [|done].
    destruct (truetype q font_size) eqn:Et; [|done].
    exfalso. apply Hq. split; [done|]. by rewrite Et.
Qed.

Lemma search_fonts_none paths font_size :
  search_fonts path_exists truetype paths font_size = None <->
  Forall (fun q => path_exists q = true -> truetype q font_size = None) paths.
Proof.
  induction paths as [|q paths IH]; simpl.
  - split; [by constructor|done].
  - rewrite Forall_cons. destruct (path_exists q) eqn:Eq.
    + destruct (truetype q font_size) eqn:Et.
      * split; [done|]. intros [Hq _]. by specialize (Hq eq_refl).
      * rewrite IH. tauto.
    + rewrite IH. split; [by split|tauto].
Qed.

(** X7: the fonts are tried in the order of the list.  The letter is drawn
    with the first candidate file that exists and loads; a file that is
    missing, or that exists but fails to load, is passed over and does not
    end the search. *)
Theorem first_usable_font_is_selected (font_size : Z) (i : nat) p f :
  font_paths !! i = Some p ->
  path_exists p = true -> truetype p font_size = Some f ->
  (forall (j : nat) q, (j < i)%nat -> font_paths !! j = Some q ->
                       ~ usable path_exists truetype font_size q) ->
  select_font path_exists truetype load_default font_size = Some f.
Proof.
  intros Hp He Hl Hbefore. unfold select_font.
  by rewrite (search_fonts_first font_paths font_size i p f).
Qed.

(** X8: the call fails for want of a font only when nothing at all can be
    loaded: every candidate that exists fails to load, ["arial.ttf"] fails
    to load and so does the default font. *)
Theorem no_font_only_if_all_fail (font_size : Z) :
  select_font path_exists truetype load_default font_size = None <->
  Forall (fun q => path_exists q = true -> truetype q font_size = None)
         font_paths ∧
  truetype "arial.ttf" font_size = None ∧ load_default = None.
Proof.
  unfold select_font. rewrite <- search_fonts_none.
  destruct (search_fonts path_exists truetype font_paths font_size);
    [split; [done|by intros [? _]]|].
  destruct (truetype "arial.ttf" font_size);
    [split; [done|by intros (_ & ? & _)]|tauto].
Qed.

End FontSearchFacts.

Lemma first_usable_font_is_selected_witness :
  font_paths !! 7%nat
    = Some "/usr/share/fonts/truetype/dejavu/DejaVuSans-Bold.ttf" ∧
  String.prefix "/usr" "/usr/share/fonts/truetype/dejavu/DejaVuSans-Bold.ttf"
    = true ∧
  (fun p size => Some (p, size))
    "/usr/share/fonts/truetype/dejavu/DejaVuSans-Bold.ttf" 90
    = Some ("/usr/share/fonts/truetype/dejavu/DejaVuSans-Bold.ttf", 90) ∧
  (forall (j : nat) q, (j < 7)%nat -> font_paths !! j = Some q ->
     ~ usable (String.prefix "/usr") (fun p size => Some (p, size)) 90 q) ∧
  select_font (String.prefix "/usr") (fun p size => Some (p, size)) None 90
    = Some ("/usr/share/fonts/truetype/dejavu/DejaVuSans-Bold.ttf", 90).
Proof.
  assert (Hbefore : forall (j : nat) q, (j < 7)%nat -> font_paths !! j = Some q ->
     ~ usable (String.prefix "/usr") (fun p size => Some (p, size)) 90 q).
  { intros j q Hj Hq [He _].
    do 7 (destruct j as [|j]; [simpl in Hq; simplify_eq; discriminate|]).
    lia. }
  split; [reflexivity|]. split; [reflexivity|]. split; [reflexivity|].
  split; [exact Hbefore|].
  apply (first_usable_font_is_selected (String.prefix "/usr")
           (fun p size => Some (p, size)) None 90 7
           "/usr/share/fonts/truetype/dejavu/DejaVuSans-Bold.ttf");
    [reflexivity|reflexivity|reflexivity|exact Hbefore].
Defined.

(** ** [create_block_letter_s]: the letter is centred *)

(** X9: the letter's box is centred to the pixel.  Drawn at the computed
    position, the box leaves a left margin and a right margin that differ
    by at most one pixel (the spare pixel goes right), and likewise top and
    bottom; when the text is no larger than the image the box lies inside
    it.  A non-zero origin of the bounding box is compensated. *)
Theorem letter_is_centred (height width b0 b1 b2 b3 : Z) :
  let '(x, y) := text_position height width (b0, b1, b2, b3) in
  let left := x + b0 in
  let right := width - (x + b2) in
  let top := y + b1 in
  let bottom := height - (y + b3) in
  left <= right <= left + 1 ∧ top <= bottom <= top + 1 ∧
  (b2 - b0 <= width -> 0 <= left) ∧ (b3 - b1 <= height -> 0 <= top).
Proof.
  unfold text_position. cbv zeta.
  pose proof (Z.div_mod (width - (b2 - b0)) 2 ltac:(lia)) as Hx.
  pose proof (Z.mod_pos_bound (width - (b2 - b0)) 2 ltac:(lia)) as Hxr.
  pose proof (Z.div_mod (height - (b3 - b1)) 2 ltac:(lia)) as Hy.
  pose proof (Z.mod_pos_bound (height - (b3 - b1)) 2 ltac:(lia)) as Hyr.
  repeat split; lia.
Qed.

(** ** [create_block_letter_s]: the samples *)

Lemma in_pixel_values p : 0 <= p <= 255 -> In p pixel_values.
Proof.
  intros Hp. unfold pixel_values. apply list_elem_of_In, list_elem_of_fmap.
  exists (Z.to_nat p). split; [lia|]. apply elem_of_seq. lia.
Qed.

Lemma pixel_values_ok : forallb pixel_ok pixel_values = true.
Proof. vm_compute. reflexivity. Qed.

Lemma pixel_ok_spec p :
  0 <= p <= 255 ->
  let v := widen (normalize_pixel p) in
  unit_sample v ∧
  (PrimFloat.eqb v 0%float = true <-> p = 0) ∧
  (PrimFloat.eqb v 1%float = true <-> p = 255) ∧
  (PrimFloat.ltb v 0.5%float = true <-> p <= 127).
Proof.
  intros Hp v. pose proof pixel_values_ok as Hall.
  rewrite forallb_forall in Hall. specialize (Hall p (in_pixel_values p Hp)).
  unfold pixel_ok in Hall. fold v in Hall.
  rewrite !andb_true_iff, !Bool.eqb_true_iff in Hall.
  destruct Hall as ((((H0 & H1) & Hz) & Ho) & Hh).
  split; [by split|]. rewrite Hz, Ho, Hh. split; [|split].
  - apply Z.eqb_eq.
  - apply Z.eqb_eq.
  - apply Z.leb_le.
Qed.

(** X10: the normalisation is exact where it matters.  Every 8-bit pixel
    becomes a sample in [0, 1]; the sample is [0.0] only for pixel 0 (the
    letter) and [1.0] only for pixel 255 (the background). *)
Theorem normalized_pixel_range (p : Z) :
  0 <= p <= 255 ->
  unit_sample (widen (normalize_pixel p)) ∧
  (PrimFloat.eqb (widen (normalize_pixel p)) 0%float = true <-> p = 0) ∧
  (PrimFloat.eqb (widen (normalize_pixel p)) 1%float = true <-> p = 255).
Proof.
  intros Hp. destruct (pixel_ok_spec p Hp) as (Hu & Hz & Ho & _). auto.
Qed.

Lemma normalized_pixel_range_witness :
  0 <= 51 <= 255 ∧
  unit_sample (widen (normalize_pixel 51)) ∧
  (PrimFloat.eqb (widen (normalize_pixel 51)) 0%float = true <-> 51 = 0) ∧
  (PrimFloat.eqb (widen (normalize_pixel 51)) 1%float = true <-> 51 = 255).
Proof. split; [lia|]. apply (normalized_pixel_range 51). lia. Defined.

Lemma ltb_trans x y z :
  PrimFloat.ltb x y = true -> PrimFloat.ltb y z = true ->
  PrimFloat.ltb x z = true.
Proof.
  intros Hxy Hyz. apply (F64Facts.lt_le_trans x y z Hxy).
  apply F64Facts.leb_true. apply F64Facts.ltb_true in Hyz as (k1 & k2 & ? & ? & E).
  exists k1, k2. split; [done|]. split; [done|]. by rewrite E.
Qed.

Lemma pixel_values_next_ok :
  forallb pixel_next_ok (Z.of_nat <$> seq 0 255) = true.
Proof. vm_compute. reflexivity. Qed.

Lemma pixel_next_ok_spec p : 0 <= p < 255 -> pixel_next_ok p = true.
Proof.
  intros Hp. pose proof pixel_values_next_ok as Hall.
  rewrite forallb_forall in Hall. apply Hall.
  apply list_elem_of_In, list_elem_of_fmap.
  exists (Z.to_nat p). split; [lia|]. apply elem_of_seq. lia.
Qed.

(** X11: the normalisation keeps the order of the grey levels: a darker
    pixel gives a strictly smaller sample.  No two pixel values collapse to
    one sample. *)
Theorem normalized_pixel_monotone (p q : Z) :
  0 <= p -> p < q -> q <= 255 ->
  PrimFloat.ltb (widen (normalize_pixel p)) (widen (normalize_pixel q)) = true.
Proof.
  intros Hp Hpq Hq.
  replace q with (p + 1 + Z.of_nat (Z.to_nat (q - p - 1))) in * by lia.
  induction (Z.to_nat (q - p - 1)) as [|n IH].
  - rewrite Z.add_0_r. apply pixel_next_ok_spec. lia.
  - eapply ltb_trans; [apply IH; lia|].
    replace (p + 1 + Z.of_nat (S n)) with (p + 1 + Z.of_nat n + 1) by lia.
    apply pixel_next_ok_spec. lia.
Qed.

Lemma normalized_pixel_monotone_witness :
  0 <= 127 ∧ 127 < 128 ∧ 128 <= 255 ∧
  PrimFloat.ltb (widen (normalize_pixel 127)) (widen (normalize_pixel 128))
    = true.
Proof.
  split; [lia|]. split; [lia|]. split; [lia|].
  apply (normalized_pixel_monotone 127 128); lia.
Defined.

(** ** From the rasterizer to the compositor *)

(** X12: with the default threshold [0.5], a pixel of the letter image
    masks exactly when its 8-bit value is at most 127.  Using the block
    letter as the mask, the result is [1.0] where the pixel is 127 or
    darker and the stippled sample where it is 128 or lighter. *)
Theorem letter_masks_dark_pixels (s : ndarray float) (pixels : list Z) :
  Forall (fun p => 0 <= p <= 255) pixels ->
  exists out,
    create_masked_stipple s (letter_array (shape s) pixels) 0.5%float
      = Return out ∧
    forall (i : nat) sv p,
      data s !! i = Some sv -> pixels !! i = Some p ->
      data out !! i = Some (if decide (p <= 127) then 1%float else sv).
Proof.
  intros Hpx. eexists. split; [by apply create_masked_stipple_eq|].
  intros i sv p Hsv Hp. unfold letter_array. simpl.
  erewrite lookup_assign_where;
    [|done|by rewrite !list_lookup_fmap, Hp].
  rewrite Forall_lookup in Hpx. specialize (Hpx i p Hp).
  destruct (pixel_ok_spec p Hpx) as (_ & _ & _ & Hhalf).
  destruct (decide (p <= 127)) as [Hle|Hgt].
  - apply Hhalf in Hle. by rewrite Hle.
  - destruct (PrimFloat.ltb (widen (normalize_pixel p)) 0.5%float) eqn:E;
      [|done].
    exfalso. apply Hgt, Hhalf. reflexivity.
Qed.

Lemma letter_masks_dark_pixels_witness :
  Forall (fun p => 0 <= p <= 255) [0; 255] ∧
  exists out,
    create_masked_stipple example_stippled
      (letter_array (shape example_stippled) [0; 255]) 0.5%float
      = Return out ∧
    forall (i : nat) sv p,
      data example_stippled !! i = Some sv -> [0; 255] !! i = Some p ->
      data out !! i = Some (if decide (p <= 127) then 1%float else sv).
Proof.
  assert (Hpx : Forall (fun p => 0 <= p <= 255) [0; 255]).
  { repeat constructor; lia. }
  split; [exact Hpx|].
  apply (letter_masks_dark_pixels example_stippled [0; 255]). exact Hpx.
Defined.

(** ** [create_statistics_meme] *)

Section MemeFacts.
Context {E : Type}.
Variable quantize : float -> Z.
Variable pil_resize : ndarray Z -> nat -> nat -> E + ndarray Z.
Variable raises : plot_call -> option E.

(** A run of calls stops at the first that raises. *)
Lemma for_each_call_ok (cs calls : list plot_call) :
  Forall (fun c => raises c = None) cs ->
  for_each cs (call raises) calls = (calls ++ cs, inr tt).
Proof.
  intros Hcs. revert calls. induction Hcs as [|c cs Hc _ IH]; intros calls.
  - simpl. unfold plot_ret. by rewrite app_nil_r.
  - simpl. unfold plot_bind, call at 1. rewrite Hc, IH.
    by rewrite <- app_assoc.
Qed.

Lemma for_each_call_raises (pre post calls : list plot_call) c e :
  Forall (fun c => raises c = None) pre -> raises c = Some e ->
  for_each (pre ++ c :: post) (call raises) calls
  = (calls ++ pre ++ [c], inl (Library e)).
Proof.
  intros Hpre Hc. revert calls.
  induction Hpre as [|c' pre Hc' _ IH]; intros calls.
  - simpl. unfold plot_bind, call at 1. by rewrite Hc.
  - simpl. unfold plot_bind, call at 1. rewrite Hc', IH.
    by rewrite <- app_assoc.
Qed.

(** Either every call is free to go, or there is a first one that raises. *)
Lemma first_raise (cs : list plot_call) :
  Forall (fun c => raises c = None) cs ∨
  exists pre c e post,
    cs = pre ++ c :: post ∧ Forall (fun c => raises c = None) pre ∧
    raises c = Some e.
Proof.
  induction cs as [|c cs IH]; [by left|].
  destruct (raises c) as [e|] eqn:Hc.
  - right. exists [], c, e, cs. by repeat split.
  - destruct IH as [Hall|(pre & c' & e & post & -> & Hpre & Hc')].
    + left. by constructor.
    + right. exists (c :: pre), c', e, post. repeat split; [|done].
      by constructor.
Qed.

(** Once the four images are settled, the function is its list of calls. *)
Lemma plotting_is_planned (p0 p1 p2 p3 : ndarray float) output_path dpi bg calls :
  (call raises (Subplots 1 4 (16, 4)) ;;;;
   call raises (SetFacecolor bg) ;;;;
   for_each (zip [0; 1; 2; 3]%nat
               (zip [p0; p1; p2; p3]
                  ["Reality"; "Your Model"; "Selection Bias"; "Estimate"]))
     (fun '(ax, (img, label)) =>
        call raises (Imshow ax img "gray" 0 1) ;;;;
        call raises (AxisOff ax) ;;;;
        call raises (SetTitle ax label 14 "bold" 10)) ;;;;
   call raises (TightLayout 2%float) ;;;;
   call raises (Savefig output_path dpi "tight" bg) ;;;;
   call raises Close ;;;;
   plot_ret tt) calls
  = for_each (planned_calls p0 p1 p2 p3 output_path dpi bg) (call raises) calls.
Proof.
  unfold planned_calls, panel_calls. simpl. unfold plot_bind, call, plot_ret.
  repeat (match goal with
          | |- context [raises ?c] => destruct (raises c); try reflexivity
          end).
Qed.

End MemeFacts.

Section MemeTheorems.
Context {E : Type}.
Variable quantize : float -> Z.
Variable pil_resize : ndarray Z -> nat -> nat -> E + ndarray Z.
Variable raises : plot_call -> option E.

Local Abbreviation reconcile' := (reconcile quantize pil_resize).
Local Abbreviation meme :=
  (create_statistics_meme quantize pil_resize raises).

Lemma plot_bind_ok {A B} (c : Plot E A) (k : A -> Plot E B) calls calls' a :
  c calls = (calls', inr a) -> plot_bind c k calls = k a calls'.
Proof. unfold plot_bind. by intros ->. Qed.

Lemma plot_bind_error {A B} (c : Plot E A) (k : A -> Plot E B) calls calls' e :
  c calls = (calls', inl e) -> plot_bind c k calls = (calls', inl e).
Proof. unfold plot_bind. by intros ->. Qed.

Lemma reconcile_cases (img : ndarray float) (h w : nat) :
  (exists p, settled quantize pil_resize img h w p ∧
             forall calls, reconcile' img h w calls = (calls, inr p)) ∨
  (exists e,
     shape img <> [h; w] ∧
     pil_resize (NDArray (shape img) (map quantize (data img))) w h = inl e ∧
     forall calls, reconcile' img h w calls = (calls, inl (Library e))).
Proof.
  unfold reconcile, resample.
  destruct (decide (shape img = [h; w])) as [Heq|Hne].
  - left. exists img. split; [by left|]. intros calls.
    rewrite bool_decide_eq_false_2; [done|]. by intros Hne.
  - rewrite bool_decide_eq_true_2 by done.
    destruct (pil_resize _ w h) as [e|resized] eqn:Hr.
    + right. by exists e.
    + left. eexists. split; [|done]. right. split; [done|]. by eexists.
Qed.

Lemma settled_shape img h w p :
  resize_contract pil_resize -> settled quantize pil_resize img h w p ->
  shape p = [h; w] ∧ (shape img <> [h; w] -> Forall unit_sample (data p)).
Proof.
  intros Hc [[Heq ->]|(Hne & resized & Hr & ->)]; [done|].
  destruct (Hc _ _ _ _ Hr) as [Hsh Hpx]. split; [done|]. intros _.
  unfold letter_array. simpl. apply Forall_fmap.
  eapply Forall_impl; [exact Hpx|]. intros p Hp. simpl.
  by destruct (pixel_ok_spec p Hp) as (Hu & _).
Qed.

(** The whole function, case by case. *)
Lemma meme_cases original stipple block masked path dpi bg (h w : nat) :
  shape original = [h; w] ->
  (exists p1 p2 p3,
     settled quantize pil_resize stipple h w p1 ∧
     settled quantize pil_resize block h w p2 ∧
     settled quantize pil_resize masked h w p3 ∧
     forall calls,
       meme original stipple block masked path dpi bg calls =
       for_each (planned_calls original p1 p2 p3 path dpi bg)
                (call raises) calls) ∨
  (exists e, forall calls,
     meme original stipple block masked path dpi bg calls
     = (calls, inl (Library e))).
Proof.
  intros Hsh. unfold create_statistics_meme. rewrite Hsh.
  unfold unpack_shape.
  destruct (reconcile_cases stipple h w) as [(p1 & S1 & R1)|(e & _ & _ & R1)].
  2:{ right. exists e. intros calls.
      erewrite plot_bind_ok by reflexivity. cbv beta iota.
      by erewrite plot_bind_error by apply R1. }
  destruct (reconcile_cases block h w) as [(p2 & S2 & R2)|(e & _ & _ & R2)].
  2:{ right. exists e. intros calls.
      erewrite plot_bind_ok by reflexivity. cbv beta iota.
      erewrite plot_bind_ok by apply R1.
      by erewrite plot_bind_error by apply R2. }
  destruct (reconcile_cases masked h w) as [(p3 & S3 & R3)|(e & _ & _ & R3)].
  2:{ right. exists e. intros calls.
      erewrite plot_bind_ok by reflexivity. cbv beta iota.
      erewrite plot_bind_ok by apply R1.
      erewrite plot_bind_ok by apply R2.
      by erewrite plot_bind_error by apply R3. }
  left. exists p1, p2, p3. repeat split; try done. intros calls.
  erewrite plot_bind_ok by reflexivity. cbv beta iota.
  erewrite plot_bind_ok by apply R1.
  erewrite plot_bind_ok by apply R2.
  erewrite plot_bind_ok by apply R3.
  apply plotting_is_planned.
Qed.

Lemma meme_unpack original stipple block masked path dpi bg calls :
  length (shape original) <> 2%nat ->
  meme original stipple block masked path dpi bg calls
  = (calls, inl (Unpack (length (shape original)))).
Proof.
  intros Hn. unfold create_statistics_meme.
  destruct (shape original) as [|h [|w [|d sh]]]; try reflexivity.
  by destruct Hn.
Qed.

(** X13: an original that is not two-dimensional stops the function at its
    first statement, with the [ValueError] of the unpacking; no figure is
    created and no file is written. *)
Theorem original_must_be_2d original stipple block masked path dpi bg calls :
  length (shape original) <> 2%nat ->
  create_statistics_meme quantize pil_resize raises
      original stipple block masked path dpi bg calls
  = (calls, inl (Unpack (length (shape original)))).
Proof. apply meme_unpack. Qed.

(** X14: all resizing happens before any plotting.  If a panel of another
    shape than the original cannot be resized, the function ends with that
    library error (or that of a panel before it) without a single call to
    matplotlib. *)
Theorem failed_resize_plots_nothing
  original stipple block masked path dpi bg (h w : nat) img e :
  shape original = [h; w] ->
  img ∈ [stipple; block; masked] -> shape img <> [h; w] ->
  pil_resize (NDArray (shape img) (map quantize (data img))) w h = inl e ->
  exists e', forall calls,
    create_statistics_meme quantize pil_resize raises
      original stipple block masked path dpi bg calls
    = (calls, inl (Library e')).
Proof.
  intros Hsh Himg Hne Hfail.
  destruct (meme_cases original stipple block masked path dpi bg h w Hsh)
    as [(p1 & p2 & p3 & S1 & S2 & S3 & _)|Herr]; [|done].
  exfalso.
  assert (Hno : forall p, ~ settled quantize pil_resize img h w p).
  { intros p [[Heq _]|(_ & r & Hr & _)]; [done|]. congruence. }
  repeat (apply elem_of_cons in Himg as [->|Himg]; [by eapply Hno|]).
  by apply elem_of_nil in Himg.
Qed.

Lemma settled_displayed img h w p :
  resize_contract pil_resize -> settled quantize pil_resize img h w p ->
  displayed img h w p.
Proof.
  intros Hc Hs. destruct (settled_shape img h w p Hc Hs) as [Hsh Hu].
  split; [done|]. split; [|done].
  intros Heq. by destruct Hs as [[_ ->]|[Hne _]].
Qed.

(** X15: the four panels come out alike.  When the call succeeds, the calls
    made are exactly: the row of four subplots, the background colour, then
    for each panel in the order Reality, Your Model, Selection Bias,
    Estimate its image, hidden axes and title, then the layout, one
    [savefig] with the caller's path, dpi and colour, and [close].  The
    original is displayed as it is, and every other panel has the
    original's shape: it is the input itself if that had this shape, and
    otherwise a resampled image with samples in [0, 1]. *)
Theorem panels_are_made_alike
  original stipple block masked path dpi bg (h w : nat) calls :
  shape original = [h; w] -> resize_contract pil_resize ->
  create_statistics_meme quantize pil_resize raises
      original stipple block masked path dpi bg [] = (calls, inr tt) ->
  exists p1 p2 p3,
    calls = planned_calls original p1 p2 p3 path dpi bg ∧
    displayed stipple h w p1 ∧ displayed block h w p2 ∧
    displayed masked h w p3.
Proof.
  intros Hsh Hc Hrun.
  destruct (meme_cases original stipple block masked path dpi bg h w Hsh)
    as [(p1 & p2 & p3 & S1 & S2 & S3 & Heq)|[e Herr]];
    [|rewrite Herr in Hrun; discriminate].
  rewrite Heq in Hrun. exists p1, p2, p3.
  split; [|split; [|split]; by apply settled_displayed].
  destruct (first_raise raises (planned_calls original p1 p2 p3 path dpi bg))
    as [Hall|(pre & c & e & post & Hcs & Hpre & Hraise)].
  - rewrite (for_each_call_ok raises _ _ Hall) in Hrun. by simplify_eq.
  - rewrite Hcs, (for_each_call_raises raises pre post [] c e Hpre Hraise)
      in Hrun. discriminate.
Qed.

Lemma planned_calls_end_with_close p0 p1 p2 p3 path dpi bg :
  exists front,
    planned_calls p0 p1 p2 p3 path dpi bg = front ++ [Close] ∧ Close ∉ front.
Proof.
  exists (take 16 (planned_calls p0 p1 p2 p3 path dpi bg)).
  split; [reflexivity|]. simpl. intros Hc.
  repeat (apply elem_of_cons in Hc as [Hc|Hc]; [discriminate|]).
  by apply elem_of_nil in Hc.
Qed.

Lemma split_before_last {A} (front pre post : list A) (l c : A) :
  front ++ [l] = pre ++ c :: post ->
  (c = l ∧ post = []) ∨ exists post', front = pre ++ c :: post'.
Proof.
  destruct post as [|x post _] using rev_ind.
  - intros Heq. left. split; [|done].
    by apply app_inj_tail in Heq as [_ ->].
  - intros Heq. right. exists post.
    change (pre ++ c :: post ++ [x]) with (pre ++ (c :: post) ++ [x]) in Heq.
    rewrite app_assoc in Heq. by apply app_inj_tail in Heq as [-> _].
Qed.

(** X16: a failure leaves the figure open.  [plt.close()] is the last
    statement and nothing guards it: if the function ends with an error
    (from the unpacking, a resize, or any call to matplotlib, [savefig]
    included) then [close] was never called, unless it is [close] itself
    that raised. *)
Theorem failure_skips_close
  original stipple block masked path dpi bg calls err :
  create_statistics_meme quantize pil_resize raises
      original stipple block masked path dpi bg [] = (calls, inl err) ->
  raises Close = None ->
  Close ∉ calls.
Proof.
  intros Hrun Hclose.
  destruct (decide (length (shape original) = 2%nat)) as [Hlen|Hlen].
  2:{ rewrite meme_unpack in Hrun by done. simplify_eq. apply not_elem_of_nil. }
  destruct (shape original) as [|h [|w [|d sh]]] eqn:Hsh; try discriminate.
  destruct (meme_cases original stipple block masked path dpi bg h w Hsh)
    as [(p1 & p2 & p3 & _ & _ & _ & Heq)|[e Herr]].
  2:{ rewrite Herr in Hrun. simplify_eq. apply not_elem_of_nil. }
  rewrite Heq in Hrun. clear Heq.
  destruct (first_raise raises (planned_calls original p1 p2 p3 path dpi bg))
    as [Hall|(pre & c & e & post & Hcs & Hpre & Hraise)].
  { rewrite (for_each_call_ok raises _ _ Hall) in Hrun. discriminate. }
  rewrite Hcs, (for_each_call_raises raises pre post [] c e Hpre Hraise)
    in Hrun.
  injection Hrun as <- _. simpl.
  destruct (planned_calls_end_with_close original p1 p2 p3 path dpi bg)
    as (front & Hplan & Hfront).
  rewrite Hplan in Hcs.
  destruct (split_before_last front pre post Close c Hcs)
    as [[-> _]|[post' ->]]; [congruence|].
  intros Hin. apply Hfront. rewrite elem_of_app in Hin. rewrite elem_of_app.
  destruct Hin as [Hin|Hin]; [by left|].
  right. apply list_elem_of_singleton in Hin as ->. by left.
Qed.

End MemeTheorems.

Lemma original_must_be_2d_witness :
  length (shape example_vector) <> 2%nat ∧
  create_statistics_meme example_quantize example_resize example_no_raise
    example_vector example_stippled example_mask example_stippled
    "meme.png" 150 "white" []
  = ([], inl (Unpack (length (shape example_vector)))).
Proof.
  split; [discriminate|].
  apply (original_must_be_2d example_quantize example_resize example_no_raise
           example_vector example_stippled example_mask example_stippled
           "meme.png" 150 "white" []).
  discriminate.
Defined.

Lemma failed_resize_plots_nothing_witness :
  shape example_stippled = [1; 2]%nat ∧
  example_wide ∈ [example_wide; example_mask; example_stippled] ∧
  shape example_wide <> [1; 2]%nat ∧
  example_resize_fails
    (NDArray (shape example_wide) (map example_quantize (data example_wide)))
    2 1 = inl tt ∧
  exists e', forall calls,
    create_statistics_meme example_quantize example_resize_fails
      example_no_raise example_stippled example_wide example_mask
      example_stippled "meme.png" 150 "white" calls
    = (calls, inl (Library e')).
Proof.
  split; [reflexivity|]. split; [by constructor|]. split; [discriminate|].
  split; [reflexivity|].
  apply (failed_resize_plots_nothing example_quantize example_resize_fails
           example_no_raise example_stippled example_wide example_mask
           example_stippled "meme.png" 150 "white" 1 2 example_wide tt);
    [reflexivity|by constructor|discriminate|reflexivity].
Defined.

Lemma example_resize_contract : resize_contract example_resize.
Proof.
  intros pixels w h resized [= <-]. split; [done|]. simpl.
  apply Forall_replicate. lia.
Qed.

Lemma panels_are_made_alike_witness :
  shape example_stippled = [1; 2]%nat ∧
  resize_contract example_resize ∧
  create_statistics_meme example_quantize example_resize example_no_raise
    example_stippled example_wide example_mask example_stippled
    "meme.png" 150 "white" []
  = (planned_calls example_stippled (letter_array [1; 2]%nat [0; 0])
       example_mask example_stippled "meme.png" 150 "white", inr tt) ∧
  exists p1 p2 p3,
    planned_calls example_stippled (letter_array [1; 2]%nat [0; 0])
      example_mask example_stippled "meme.png" 150 "white"
    = planned_calls example_stippled p1 p2 p3 "meme.png" 150 "white" ∧
    displayed example_wide 1 2 p1 ∧ displayed example_mask 1 2 p2 ∧
    displayed example_stippled 1 2 p3.
Proof.
  split; [reflexivity|]. split; [exact example_resize_contract|].
  split; [reflexivity|].
  apply (panels_are_made_alike example_quantize example_resize
           example_no_raise example_stippled example_wide example_mask
           example_stippled "meme.png" 150 "white" 1 2);
    [reflexivity|exact example_resize_contract|reflexivity].
Defined.

Lemma failure_skips_close_witness :
  create_statistics_meme example_quantize example_resize example_save_raises
    example_stippled example_stippled example_mask example_stippled
    "meme.png" 150 "white" []
  = (take 16 (planned_calls example_stippled example_stippled example_mask
                example_stippled "meme.png" 150 "white"),
     inl (Library tt)) ∧
  example_save_raises Close = None ∧
  Close ∉ take 16 (planned_calls example_stippled example_stippled
                     example_mask example_stippled "meme.png" 150 "white").
Proof.
  split; [reflexivity|]. split; [reflexivity|].
  apply (failure_skips_close example_quantize example_resize
           example_save_raises example_stippled example_stippled example_mask
           example_stippled "meme.png" 150 "white" _ (Library tt));
    reflexivity.
Defined.

(** ** [create_block_letter_s] *)

Section BlockLetterFacts.
Context {font : Type}.
Variable path_exists : string -> bool.
Variable truetype : string -> Z -> option font.
Variable load_default : option font.
Variable textbbox : string -> font -> Z * Z * Z * Z.
Variable draw_text : ndarray Z -> Z * Z -> string -> font -> ndarray Z.

Lemma blank_canvas (height width : nat) :
  let img := NDArray [height; width] (replicate (height * width) 255) in
  wf img ∧ Forall (fun p => 0 <= p <= 255) (data img).
Proof.
  split.
  - unfold wf. simpl. rewrite length_replicate. lia.
  - simpl. apply Forall_replicate. lia.
Qed.

(** X17: the block letter has the size asked for and proper samples.
    Whenever the function returns, the array has [height] rows and [width]
    columns (the canvas is created as [(width, height)] and read back as
    [(height, width)]) and every sample lies in [0, 1]. *)
Theorem block_letter_is_a_field
  (height width : nat) (letter : string) (font_size_ratio : float) a :
  draw_contract draw_text ->
  create_block_letter_s path_exists truetype load_default textbbox draw_text
    height width letter font_size_ratio = Some a ->
  shape a = [height; width] ∧ wf a ∧ Forall unit_sample (data a).
Proof.
  intros Hdraw. unfold create_block_letter_s.
  destruct (int_of_float _) as [font_size|]; [|discriminate]. simpl.
  destruct (select_font _ _ _ font_size) as [f|]; [|discriminate]. simpl.
  destruct (textbbox letter f) as [[[b0 b1] b2] b3].
  intros [= <-].
  destruct (blank_canvas height width) as [Hwf Hpx].
  match goal with
  | |- context [draw_text ?img ?xy letter f] =>
      destruct (Hdraw img xy letter f) as (Hsh & Hw & Hp);
      specialize (Hw Hwf); specialize (Hp Hpx);
      set (drawn := draw_text img xy letter f) in *
  end.
  unfold letter_array. simpl. split; [done|]. split.
  - unfold wf in *. simpl in *. by rewrite length_map, Hw, Hsh.
  - apply Forall_fmap. eapply Forall_impl; [exact Hp|].
    intros p Hrange. simpl. by destruct (pixel_ok_spec p Hrange) as (Hu & _).
Qed.

End BlockLetterFacts.

Lemma example_draw_contract : draw_contract example_draw.
Proof. intros img xy letter f. by repeat split. Qed.

Lemma block_letter_is_a_field_witness :
  draw_contract example_draw ∧
  create_block_letter_s example_no_file example_truetype example_default
    example_textbbox example_draw 2 3 "S" 0.5%float
  = Some (letter_array [2; 3]%nat (replicate 6 255)) ∧
  shape (letter_array [2; 3]%nat (replicate 6 255)) = [2; 3]%nat ∧
  wf (letter_array [2; 3]%nat (replicate 6 255)) ∧
  Forall unit_sample (data (letter_array [2; 3]%nat (replicate 6 255))).
Proof.
  split; [exact example_draw_contract|]. split; [reflexivity|].
  apply (block_letter_is_a_field example_no_file example_truetype
           example_default example_textbbox example_draw 2 3 "S" 0.5%float);
    [exact example_draw_contract|reflexivity].
Defined.

(** * The dtype of the mask *)

(** ** Comparisons in a dtype *)







(** In float64 the comparisons are those of the binary64 numbers. *)
Lemma less_float64 v t : less float64 v t = PrimFloat.ltb v t.
Proof. unfold less, cast. by rewrite ltb_spec. Qed.


Lemma equal_float64 v t : equal float64 v t = PrimFloat.eqb v t.
Proof. unfold equal, cast. by rewrite FloatAxioms.eqb_spec. Qed.

(** ** Rounding keeps the sign *)

Section RoundSign.
Variables prec emax : Z.






End RoundSign.


(** ** Rounding to float32 keeps a number in [0, 1] there *)














(** ** [create_masked_stipple] for a mask of either dtype *)

Lemma create_masked_stipple_locals_dtype_eq dt s m t :
  shape s = shape m ->
  create_masked_stipple_locals_dtype dt s m t =
  Return (Locals (np_setitem_mask (np_copy s) (np_less_dtype dt m t) 1%float)
                 (np_less_dtype dt m t)
                 (np_sum (np_and (np_equal s 0%float) (np_less_dtype dt m t)))
                 (np_sum (np_equal s 0%float))).
Proof.
  intros Hs. unfold create_masked_stipple_locals_dtype.
  rewrite bool_decide_eq_false_2; [done|]. by intros Hne.
Qed.

Lemma create_masked_stipple_dtype_eq dt s m t :
  shape s = shape m ->
  create_masked_stipple_dtype dt s m t =
  Return (NDArray (shape s)
            (assign_where (data s)
               (map (fun v => less dt v t) (data m)) 1%float)).
Proof.
  intros Hs. unfold create_masked_stipple_dtype.
  by rewrite create_masked_stipple_locals_dtype_eq.
Qed.

(** For a float64 mask the function is the one studied above. *)
Lemma create_masked_stipple_locals_float64 s m t :
  create_masked_stipple_locals_dtype float64 s m t =
  create_masked_stipple_locals s m t.
Proof.
  unfold create_masked_stipple_locals_dtype, create_masked_stipple_locals.
  assert (np_less_dtype float64 m t = np_less m t) as ->; [|done].
  unfold np_less_dtype, np_less. f_equal. apply map_ext. intros v.
  apply less_float64.
Qed.





(** ** Degenerate thresholds *)




(** ** [create_masked_stipple]: arrays of any dimension *)

(** X1: the function is not tied to two dimensions.  For arrays of any
    common shape (a scalar array, a vector, a volume, an empty array) and a
    mask of either dtype it returns an array of that shape whose sample at
    each position is [1.0] when the mask sample there is below the
    threshold, both taken in the dtype of the mask, and the stippled sample
    otherwise; for a float64 mask the comparison is [mask < threshold]
    itself. *)
Theorem masked_output_any_dimension_dtype (dt : dtype)
  (s m : ndarray float) (t : float) :
  wf s -> wf m -> shape s = shape m ->
  exists out,
    create_masked_stipple_dtype dt s m t = Return out ∧
    shape out = shape s ∧ wf out ∧
    forall (i : nat) sv mv,
      data s !! i = Some sv -> data m !! i = Some mv ->
      data out !! i = Some (if less dt mv t then 1%float else sv) ∧
      (dt = float64 ->
       data out !! i = Some (if PrimFloat.ltb mv t then 1%float else sv)).
Proof.
  intros Hws Hwm Hsh. eexists.
  split; [by apply create_masked_stipple_dtype_eq|].
  split; [done|]. split.
  - unfold wf in *. simpl. by rewrite length_assign_where.
  - intros i sv mv Hsv Hmv. simpl.
    assert (Hout : assign_where (data s)
                     (map (fun v => less dt v t) (data m)) 1%float !! i =
                   Some (if less dt mv t then 1%float else sv)).
    { apply lookup_assign_where; [done|]. by rewrite list_lookup_fmap, Hmv. }
    split; [done|]. intros ->. by rewrite Hout, less_float64.
Qed.

Lemma masked_output_any_dimension_dtype_witness :
  wf (NDArray [3]%nat [0%float; 0.25%float; 1%float]) ∧
  wf (letter_array [3]%nat [0; 127; 255]) ∧
  shape (NDArray [3]%nat [0%float; 0.25%float; 1%float]) =
    shape (letter_array [3]%nat [0; 127; 255]) ∧
  exists out,
    create_masked_stipple_dtype float32
      (NDArray [3]%nat [0%float; 0.25%float; 1%float])
      (letter_array [3]%nat [0; 127; 255]) 0.5%float = Return out ∧
    shape out = [3]%nat ∧ wf out ∧
    forall (i : nat) sv mv,
      [0%float; 0.25%float; 1%float] !! i = Some sv ->
      data (letter_array [3]%nat [0; 127; 255]) !! i = Some mv ->
      data out !! i = Some (if less float32 mv 0.5%float then 1%float else sv) ∧
      (float32 = float64 ->
       data out !! i =
         Some (if PrimFloat.ltb mv 0.5%float then 1%float else sv)).
Proof.
  split; [reflexivity|]. split; [reflexivity|]. split; [reflexivity|].
  apply (masked_output_any_dimension_dtype float32
           (NDArray [3]%nat [0%float; 0.25%float; 1%float])
           (letter_array [3]%nat [0; 127; 255]) 0.5%float);
    reflexivity.
Defined.
